(** * Shallow embedding of src/gateway/mission.ts (moltworker)

    Strings are modelled as [String.string]; each character stands for one
    UTF-16 code unit of the JavaScript string, so [length], [substring] and
    [slice] count the same units as the source.  [toLowerCase] is modelled on
    the ASCII range. *)

From Stdlib Require Import ZArith String Ascii List Bool Lia QArith Qround.
From Stdlib Require Import Numbers.DecimalString.
Import ListNotations.
Open Scope string_scope.
Open Scope Z_scope.
Set Warnings "-abstract-large-number".

(** ** JavaScript string helpers *)

Module JS.

(** [s.startsWith(p)] *)
Definition startsWith (s p : string) : bool := String.prefix p s.

(** [s.includes(sub)] *)
Fixpoint includes (s sub : string) : bool :=
  if String.prefix sub s then true
  else match s with
       | EmptyString => false
       | String _ s' => includes s' sub
       end.

(** [String.prototype.toLowerCase] on the ASCII range. *)
Definition lower_char (c : ascii) : ascii :=
  let n := nat_of_ascii c in
  if andb (Nat.leb 65 n) (Nat.leb n 90) then ascii_of_nat (n + 32) else c.

Fixpoint toLowerCase (s : string) : string :=
  match s with
  | EmptyString => EmptyString
  | String c s' => String (lower_char c) (toLowerCase s')
  end.

(** [s.slice(0, n)] for [n >= 0] *)
Definition slice_prefix (s : string) (n : nat) : string := substring 0 n s.

(** [s.slice(-n)] for [0 < n <= s.length] *)
Definition slice_last (s : string) (n : nat) : string :=
  substring (String.length s - n) n s.

(** [s.replace(/c/g, r)] for a one-character pattern *)
Fixpoint replace_all (c : ascii) (r s : string) : string :=
  match s with
  | EmptyString => EmptyString
  | String d s' =>
      if Ascii.eqb d c then r ++ replace_all c r s'
      else String d (replace_all c r s')
  end.

(** [arr.join(sep)] *)
Fixpoint join (sep : string) (l : list string) : string :=
  match l with
  | [] => ""
  | [x] => x
  | x :: l' => x ++ sep ++ join sep l'
  end.

(** Template-literal interpolation of an integer [number]. *)
Definition show_Z (z : Z) : string := NilEmpty.string_of_int (Z.to_int z).

(** Truthiness of a string: [if (s)] *)
Definition truthy (s : string) : bool :=
  match s with EmptyString => false | _ => true end.

(** [a || b] on strings *)
Definition or_str (a b : string) : string := if truthy a then a else b.

(** Truthiness of an optional string field: [if (request.x)] *)
Definition opt_truthy (o : option string) : option string :=
  match o with Some s => if truthy s then Some s else None | None => None end.

End JS.

Import JS.

(** ** Completion classifier ([checkCompletion], [ERROR_INDICATORS]) *)

Definition ERROR_INDICATORS : list string :=
  ["error:"; "failed"; "todo:"; "fixme"; "not implemented";
   "incomplete"; "missing"; "broken"].

Definition TASK_COMPLETE : string := "[TASK_COMPLETE]".
Definition NEEDS_REFINEMENT : string := "[NEEDS_REFINEMENT]".

Definition checkCompletion (output : string) (exitCode : Z) : bool :=
  if includes output TASK_COMPLETE then true
  else if negb (exitCode =? 0) then false
  else if includes output NEEDS_REFINEMENT then false
  else if Nat.ltb 100 (String.length output) then
    let lowerOutput := toLowerCase output in
    let hasErrors := existsb (fun indicator => includes lowerOutput indicator)
                       ERROR_INDICATORS in
    if negb hasErrors then true else false
  else false.

(** ** Time-budget constants and the per-turn timeout (lines 132-135, 226-238) *)

Definition SINGLE_SHOT_TIMEOUT_MS : Z := 300000.
Definition MULTI_TURN_TOTAL_BUDGET_MS : Z := 270000.
Definition MULTI_TURN_PER_TURN_CAP_MS : Z := 180000.
Definition MULTI_TURN_MIN_REMAINING_MS : Z := 60000.

(** The timeout computed at the top of each loop iteration; [None] is the
    [break] taken when too little time remains. *)
Definition turnTimeout (isMultiTurn : bool) (elapsed : Z) : option Z :=
  if negb isMultiTurn then Some SINGLE_SHOT_TIMEOUT_MS
  else
    let remaining := MULTI_TURN_TOTAL_BUDGET_MS - elapsed in
    if remaining <? MULTI_TURN_MIN_REMAINING_MS then None
    else Some (Z.min remaining MULTI_TURN_PER_TURN_CAP_MS).

(** ** Per-request credentials ([ApiCredentials], [buildCredentialEnvVars]) *)

Inductive Provider :=
| anthropic | openai | xai | moonshot | cloudflare_ai_gateway | openrouter | minimax.

Record ApiCredentials := mkApiCredentials {
  provider : Provider;
  api_key : string;
  base_url : option string
}.

(** A [Record<string, string>] built by property assignment: an assignment
    to an existing key overwrites it in place, a new key is appended. *)
Definition Env := list (string * string).

Fixpoint env_set (k v : string) (e : Env) : Env :=
  match e with
  | [] => [(k, v)]
  | (k', v') :: e' => if String.eqb k k' then (k, v) :: e' else (k', v') :: env_set k v e'
  end.

Fixpoint env_get (k : string) (e : Env) : option string :=
  match e with
  | [] => None
  | (k', v') :: e' => if String.eqb k k' then Some v' else env_get k e'
  end.

(** [credentials.base_url || d] *)
Definition base_url_or (b : option string) (d : string) : string :=
  match b with Some s => or_str s d | None => d end.

(** Splits off the longest prefix without a ['/']. *)
Fixpoint span_nonslash (s : string) : string * string :=
  match s with
  | EmptyString => ("", "")
  | String c s' =>
      if Ascii.eqb c "/"%char then ("", s)
      else let (a, r) := span_nonslash s' in (String c a, r)
  end.

(** [s.match(/\/v1\/([^/]+)\/([^/]+)/)], returning the two groups.  At a
    given start the greedy [[^/]+] can only stop before a ['/'], so the
    match at that start is unique; otherwise the search moves one right. *)
Fixpoint match_v1_ids (s : string) : option (string * string) :=
  let here :=
    if String.prefix "/v1/" s then
      let (a, r) := span_nonslash (substring 4 (String.length s - 4) s) in
      match r with
      | String c r' =>
          if andb (truthy a) (Ascii.eqb c "/"%char) then
            let (b, _) := span_nonslash r' in
            if truthy b then Some (a, b) else None
          else None
      | EmptyString => None
      end
    else None in
  match here with
  | Some m => Some m
  | None => match s with EmptyString => None | String _ s' => match_v1_ids s' end
  end.

Definition buildCredentialEnvVars (credentials : ApiCredentials) : Env :=
  let envVars : Env := [] in
  match provider credentials with
  | anthropic =>
      let envVars := env_set "ANTHROPIC_API_KEY" (api_key credentials) envVars in
      match opt_truthy (base_url credentials) with
      | Some b => env_set "ANTHROPIC_BASE_URL" b envVars
      | None => envVars
      end
  | openai =>
      let envVars := env_set "OPENAI_API_KEY" (api_key credentials) envVars in
      match opt_truthy (base_url credentials) with
      | Some b => env_set "OPENAI_BASE_URL" b envVars
      | None => envVars
      end
  | xai =>
      let envVars := env_set "OPENAI_API_KEY" (api_key credentials) envVars in
      env_set "OPENAI_BASE_URL" (base_url_or (base_url credentials) "https://api.x.ai/v1") envVars
  | moonshot =>
      let envVars := env_set "MOONSHOT_API_KEY" (api_key credentials) envVars in
      match opt_truthy (base_url credentials) with
      | Some b => env_set "MOONSHOT_BASE_URL" b envVars
      | None => envVars
      end
  | openrouter =>
      let envVars := env_set "OPENAI_API_KEY" (api_key credentials) envVars in
      env_set "OPENAI_BASE_URL" (base_url_or (base_url credentials) "https://openrouter.ai/api/v1") envVars
  | minimax =>
      let envVars := env_set "OPENAI_API_KEY" (api_key credentials) envVars in
      env_set "OPENAI_BASE_URL" (base_url_or (base_url credentials) "https://api.minimaxi.chat/v1") envVars
  | cloudflare_ai_gateway =>
      let envVars := env_set "CLOUDFLARE_AI_GATEWAY_API_KEY" (api_key credentials) envVars in
      match opt_truthy (base_url credentials) with
      | Some b =>
          match match_v1_ids b with
          | Some (acct, gw) =>
              env_set "CF_AI_GATEWAY_GATEWAY_ID" gw
                (env_set "CF_AI_GATEWAY_ACCOUNT_ID" acct envVars)
          | None => envVars
          end
      | None => envVars
      end
  end.

(** ** Request bodies as parsed JSON ([validateApiCredentials], [validateMissionRequest]) *)

(** A value produced by [JSON.parse]; JSON numbers are finite, modelled as
    rationals.  A missing property reads as [undefined] ([None]). *)
#[warnings="-register-all"]
Inductive JSON :=
| JNull
| JBool (b : bool)
| JNum (q : Q)
| JStr (s : string)
| JArr (l : list JSON)
| JObj (fields : list (string * JSON)).

(** [obj[k]]: with duplicate keys [JSON.parse] keeps the last one. *)
Fixpoint assoc_last (k : string) (fs : list (string * JSON)) : option JSON :=
  match fs with
  | [] => None
  | (k', v) :: fs' =>
      match assoc_last k fs' with
      | Some r => Some r
      | None => if String.eqb k k' then Some v else None
      end
  end.

Definition prop (v : JSON) (k : string) : option JSON :=
  match v with JObj fs => assoc_last k fs | _ => None end.

(** [!v || typeof v !== 'object'] for a present value or [undefined]. *)
Definition not_object (v : option JSON) : bool :=
  match v with
  | Some (JObj _) | Some (JArr _) => false
  | _ => true
  end.

(** [typeof v === 'string' ? v : undefined] *)
Definition as_string (v : option JSON) : option string :=
  match v with Some (JStr s) => Some s | _ => None end.

Definition provider_of_string (s : string) : option Provider :=
  if String.eqb s "anthropic" then Some anthropic
  else if String.eqb s "openai" then Some openai
  else if String.eqb s "xai" then Some xai
  else if String.eqb s "moonshot" then Some moonshot
  else if String.eqb s "cloudflare-ai-gateway" then Some cloudflare_ai_gateway
  else if String.eqb s "openrouter" then Some openrouter
  else if String.eqb s "minimax" then Some minimax
  else None.

Definition validateApiCredentials (creds : option JSON) : option ApiCredentials :=
  if not_object creds then None
  else
    let c := match creds with Some v => v | None => JNull end in
    match as_string (prop c "provider") with
    | None => None
    | Some ps =>
        match provider_of_string ps with
        | None => None
        | Some p =>
            match as_string (prop c "api_key") with
            | Some k =>
                if truthy k then
                  Some (mkApiCredentials p k (as_string (prop c "base_url")))
                else None
            | None => None
            end
        end
    end.

Record MissionExecuteRequest := mkRequest {
  agent_id : string;
  task_id : string;
  task_subject : string;
  task_description : string;
  soul_content : string;
  model_override : option string;
  team_context : option string;
  methodology_context : option string;
  agent_memory : option string;
  project_memory : option string;
  project_communications : option string;
  project_document_index : option string;
  api_credentials : option ApiCredentials;
  max_iterations : option Z   (** an integer: [validateMissionRequest] stores [Math.floor] of the
                                  number; fractional or infinite values of an unvalidated
                                  request are not represented *)
}.

Inductive Validation :=
| Valid (request : MissionExecuteRequest)
| Invalid (error : string).

(** [typeof v === 'string' && v] *)
Definition nonempty_string (v : option JSON) : option string :=
  match as_string v with
  | Some s => if truthy s then Some s else None
  | None => None
  end.

(** [Math.max(1, Math.min(Math.floor(n), 5))] on a finite number. *)
Definition clamp_iterations (q : Q) : Z := Z.max 1 (Z.min (Qfloor q) 5).

Definition validateMissionRequest (body : JSON) : Validation :=
  if not_object (Some body) then Invalid "Request body must be a JSON object"
  else
  match nonempty_string (prop body "agent_id") with
  | None => Invalid "agent_id is required and must be a string"
  | Some agent =>
  match nonempty_string (prop body "task_id") with
  | None => Invalid "task_id is required and must be a string"
  | Some tid =>
  match nonempty_string (prop body "task_subject") with
  | None => Invalid "task_subject is required and must be a string"
  | Some subj =>
  match as_string (prop body "task_description") with
  | None => Invalid "task_description must be a string"
  | Some descr =>
  match nonempty_string (prop body "soul_content") with
  | None => Invalid "soul_content is required and must be a string"
  | Some soul =>
      Valid {|
        agent_id := agent;
        task_id := tid;
        task_subject := subj;
        task_description := descr;
        soul_content := soul;
        model_override := as_string (prop body "model_override");
        team_context := as_string (prop body "team_context");
        methodology_context := as_string (prop body "methodology_context");
        agent_memory := as_string (prop body "agent_memory");
        project_memory := as_string (prop body "project_memory");
        project_communications := as_string (prop body "project_communications");
        project_document_index := as_string (prop body "project_document_index");
        api_credentials := validateApiCredentials (prop body "api_credentials");
        max_iterations :=
          match prop body "max_iterations" with
          | Some (JNum q) => Some (clamp_iterations q)
          | _ => None
          end
      |}
  end end end end end.

(** [request.max_iterations || 1] ([0] is falsy) and [maxIterations > 1]. *)
Definition maxIterations (request : MissionExecuteRequest) : Z :=
  match max_iterations request with
  | Some n => if n =? 0 then 1 else n
  | None => 1
  end.

Definition isMultiTurn (request : MissionExecuteRequest) : bool :=
  1 <? maxIterations request.

(** ** Prompt builders ([detectActionBlockTask], [buildFirstTurnPrompt],
    [buildFollowUpTurnPrompt]) *)

Definition SECTION_SEP : string := "

---

".

Definition detectActionBlockTask (request : MissionExecuteRequest) : bool :=
  let subject := or_str (task_subject request) "" in
  let description := or_str (task_description request) "" in
  let text := toLowerCase (subject ++ " " ++ description) in
  if startsWith subject "[KICKOFF]" then true
  else
    let planningKeywords :=
      ["create tasks"; "generate tasks"; "plan tasks"; "break down"; "task plan"] in
    if existsb (fun kw => includes text kw) planningKeywords then true
    else if andb (String.eqb (agent_id request) "jarvis") (includes text "action block")
    then true
    else false.

(** The double quote of the JSON examples is written [~] below and
    substituted, since a Rocq string literal spells it by doubling. *)
Definition dq : string := String (ascii_of_nat 34) EmptyString.

(** The em dash of this text is held as its 3 UTF-8 bytes where JavaScript
    counts one UTF-16 unit; no property below depends on its length. *)
Definition ACTION_BLOCK_SECTION : string := replace_all "~"%char dq
"# Action Block Format

You can create tasks and dependencies by emitting structured JSONL between markers.
Mission Control will parse and execute these on your behalf.

```
[ACTIONS_BEGIN]
{~action~:~create_task~,~ref~:~T1~,~subject~:~Task title~,~description~:~Detailed description~,~priority~:8,~assign_to~:~architect~}
{~action~:~create_task~,~ref~:~T2~,~subject~:~Another task~,~description~:~...~,~priority~:7,~assign_to~:~backend~}
{~action~:~add_dependency~,~task_ref~:~T2~,~blocked_by_ref~:~T1~}
[ACTIONS_END]
```

**Rules:**
- One JSON object per line (JSONL format)
- `ref` is a label you assign (T1, T2, etc.) — used to wire up dependencies
- `assign_to` must be one of: jarvis, architect, backend, frontend, reviewer, hawk
- `priority` range: 1 (lowest) to 10 (highest)
- Maximum 20 actions per block
- Always include the action block BEFORE your `[TASK_COMPLETE]` marker".

Definition MULTI_TURN_INSTRUCTIONS : string :=
"# Instructions

You are executing this task as part of the Lifebot project.

1. Read the task description carefully
2. Implement the required functionality
3. Ensure the code works and handles basic errors
4. Report what you've created or accomplished

**When you are done**, end your response with `[TASK_COMPLETE]`.
**If you need another pass** to refine or fix issues, end with `[NEEDS_REFINEMENT]`.

Begin the task now.".

Definition SINGLE_SHOT_INSTRUCTIONS : string :=
"# Instructions

You are executing this task as part of the Lifebot project.

1. Read the task description carefully
2. Implement the required functionality
3. Ensure the code works and handles basic errors
4. Report what you've created or accomplished

Begin the task now.".

(** [if (request.x) sections.push(heading + request.x)] *)
Definition opt_section (heading : string) (o : option string) : list string :=
  match opt_truthy o with Some s => [heading ++ s] | None => [] end.

Definition buildFirstTurnPrompt (request : MissionExecuteRequest) (multi : bool) : string :=
  let sections := concat [
    ["# Agent Context

" ++ soul_content request]
    ; opt_section "# Team Information

" (team_context request)
    ; opt_section "# Your Memory (Learnings from previous tasks)

" (agent_memory request)
    ; opt_section "# Project Memory

" (project_memory request)
    ; opt_section "# Project Communications Log

" (project_communications request)
    ; opt_section "# Available Project Documents

" (project_document_index request)
    ; opt_section "# Methodology

" (methodology_context request)
    ; ["# Current Task

**Task ID:** " ++ task_id request ++ "
**Subject:** " ++ task_subject request ++ "

## Description

" ++ or_str (task_description request) "No additional description provided."]
    ; (if detectActionBlockTask request then [ACTION_BLOCK_SECTION] else [])
    ; [if multi then MULTI_TURN_INSTRUCTIONS else SINGLE_SHOT_INSTRUCTIONS]] in
  join SECTION_SEP sections.

Definition maxPreviousLength : nat := 8000.

Definition TRUNCATION_NOTICE : string := "...(truncated)...
".

Definition truncatePrevious (previousOutput : string) : string :=
  if Nat.ltb maxPreviousLength (String.length previousOutput)
  then TRUNCATION_NOTICE ++ slice_last previousOutput maxPreviousLength
  else previousOutput.

Definition FOLLOW_UP_INSTRUCTIONS : string :=
"# Instructions

Review your previous output above. Look for:
- Errors, incomplete sections, or missing details
- Improvements to make the output more complete and correct
- Any issues flagged in the previous output

Refine your work and provide the improved, complete output.

**When you are done**, end your response with `[TASK_COMPLETE]`.
**If you still need another pass**, end with `[NEEDS_REFINEMENT]`.".

Definition FINAL_TURN_NOTE : string := "

**This is your final turn.** Provide your best output now.".

Definition buildFollowUpTurnPrompt (request : MissionExecuteRequest) (turn : Z)
    (previousOutput : string) (isFinalTurn : bool) : string :=
  let truncatedOutput := truncatePrevious previousOutput in
  let finalTurnNote := if isFinalTurn then FINAL_TURN_NOTE else "" in
  join SECTION_SEP
    ["# Agent: " ++ agent_id request ++ " (Turn " ++ show_Z turn ++ ")";
     "# Previous Turn Output

" ++ truncatedOutput;
     "# Task Reminder

**Task ID:** " ++ task_id request ++ "
**Subject:** " ++ task_subject request;
     FOLLOW_UP_INSTRUCTIONS ++ finalTurnNote].

(** ** Shell command construction (lines 245-252) *)

Definition SQ : string := "'".

(** [prompt.replace(/'/g, "'\\''")] *)
Definition escapePrompt (prompt : string) : string :=
  replace_all "'"%char ("'" ++ "\" ++ "'" ++ "'") prompt.

Definition buildCommand (model_override : option string) (prompt : string) : string :=
  let escapedPrompt := escapePrompt prompt in
  let command := "openclaw chat --once --url ws://localhost:18789" in
  let command :=
    match opt_truthy model_override with
    | Some m => command ++ " --model '" ++ m ++ "'"
    | None => command
    end in
  command ++ " '" ++ escapedPrompt ++ "'".

(** ** The execution loop ([executeMissionTask]) *)

Record TurnOutput := mkTurnOutput {
  turn : Z;
  output : string;
  duration_ms : Z;
  completed : bool
}.

Record MissionExecuteResponse := mkResponse {
  success : bool;
  r_output : option string;
  r_error : option string;
  r_duration_ms : option Z;
  turns_used : option Z;
  turn_outputs : option (list TurnOutput)
}.

(** What one [startProcess] / [waitForProcess] / [getLogs] round gives back:
    either one of the awaited calls throws ([Error] instances carry a
    message), or the logs and [proc.exitCode] are read. *)
Inductive ProcOutcome :=
| Threw (message : option string)
| Finished (stdout stderr : option string) (exitCode : option Z) (turnDuration : Z).

(** The collaborators of [executeMissionTask]: the gateway readiness check,
    the clock and the sandbox process runner. *)
Record World := mkWorld {
  w_gateway : option (option string);      (** [Some e]: [ensureMoltbotGateway] throws *)
  w_elapsed : Z -> Z;                      (** [Date.now() - startTime] at the start of turn [n] *)
  w_run : Z -> string -> option Env -> Z -> ProcOutcome;
                                           (** turn, command, [env], timeout *)
  w_total : Z                              (** [Date.now() - startTime] when the result is built *)
}.

(** Observation of one executed turn (ghost: exit code and stderr are local
    variables of the source, recorded here so properties can mention them). *)
Record TurnObs := mkObs {
  ob_turn : Z;
  ob_stdout : string;
  ob_stderr : string;
  ob_exit : Z;
  ob_duration : Z
}.

Inductive StopReason :=
| StopBudget (turn : Z)   (** no timeout granted before [turn] *)
| StopFailed | StopSuccess | StopExhausted.

Record LoopState := mkLoop {
  turnOutputs : list TurnOutput;
  finalOutput : string;
  finalSuccess : bool;
  lastStderr : string;
  ls_log : list TurnObs;                (** ghost *)
  ls_stop : option StopReason           (** ghost: which [break] ended the loop *)
}.

Definition initLoop : LoopState := mkLoop [] "" false "" [] None.

Inductive Step :=
| Continue (st : LoopState)
| Break (st : LoopState)
| Raise (message : option string).

Section Loop.
Variables (w : World) (request : MissionExecuteRequest) (execEnv : option Env).

Definition maxI : Z := maxIterations request.
Definition multi : bool := isMultiTurn request.

(** The body of [for (let turn = 1; turn <= maxIterations; turn++)]. *)
Definition loop_body (turn : Z) (st : LoopState) : Step :=
  match turnTimeout multi (w_elapsed w turn) with
  | None => Break {| turnOutputs := turnOutputs st; finalOutput := finalOutput st;
                     finalSuccess := finalSuccess st; lastStderr := lastStderr st;
                     ls_log := ls_log st; ls_stop := Some (StopBudget turn) |}
  | Some tmo =>
      let prompt :=
        if turn =? 1 then buildFirstTurnPrompt request multi
        else buildFollowUpTurnPrompt request turn (finalOutput st) (turn =? maxI) in
      let command := buildCommand (model_override request) prompt in
      match w_run w turn command execEnv tmo with
      | Threw e => Raise e
      | Finished so se ec turnDuration =>
          let stdout := match so with Some s => or_str s "" | None => "" end in
          let stderr := match se with Some s => or_str s "" | None => "" end in
          let exitCode := match ec with Some c => c | None => 1 end in
          let lastStderr' := if truthy stderr then stderr else lastStderr st in
          let completed := checkCompletion stdout exitCode in
          let outs := app (turnOutputs st) [mkTurnOutput turn stdout turnDuration completed] in
          let log := app (ls_log st) [mkObs turn stdout stderr exitCode turnDuration] in
          if andb (negb (exitCode =? 0)) (turn =? maxI) then
            Break (mkLoop outs stdout false lastStderr' log (Some StopFailed))
          else if completed then
            Break (mkLoop outs stdout true lastStderr' log (Some StopSuccess))
          else if turn =? maxI then
            Break (mkLoop outs stdout (exitCode =? 0) lastStderr' log (Some StopExhausted))
          else Continue (mkLoop outs stdout (finalSuccess st) lastStderr' log None)
      end
  end.

(** The loop itself; [fuel] bounds the iterations by [maxIterations]. *)
Fixpoint run_loop (fuel : nat) (turn : Z) (st : LoopState) : option (option string) * LoopState :=
  match fuel with
  | O => (None, st)
  | S fuel' =>
      if turn <=? maxI then
        match loop_body turn st with
        | Continue st' => run_loop fuel' (turn + 1) st'
        | Break st' => (None, st')
        | Raise e => (Some e, st)
        end
      else (None, st)
  end.

End Loop.

(** The object literal returned at the end of the [try] block. *)
Definition buildResponse (multi : bool) (duration : Z) (st : LoopState) : MissionExecuteResponse :=
  let turnsUsed := Z.of_nat (length (turnOutputs st)) in
  {| success := finalSuccess st;
     r_output := Some (finalOutput st);
     r_duration_ms := Some duration;
     turns_used := Some turnsUsed;
     turn_outputs := if multi then Some (turnOutputs st) else None;
     r_error :=
       if finalSuccess st then None
       else Some (if truthy (lastStderr st) then slice_prefix (lastStderr st) 500
                  else match last (map Some (turnOutputs st)) None with
                       | Some o => if truthy (output o)
                                   then "Task not completed after " ++ show_Z turnsUsed ++ " turn(s)"
                                   else "No output produced"
                       | None => "No output produced"
                       end) |}.

(** The object literal returned by the [catch] block. *)
Definition errorResponse (e : option string) (duration : Z) : MissionExecuteResponse :=
  {| success := false;
     r_output := None;
     r_error := Some (match e with Some m => m | None => "Unknown error" end);
     r_duration_ms := Some duration;
     turns_used := None;
     turn_outputs := None |}.

(** [executeMissionTask], with the final loop state (when the [try] block
    completes) exposed for stating properties. *)
Definition executeMissionTask_traced (w : World) (request : MissionExecuteRequest)
    : MissionExecuteResponse * option LoopState :=
  match w_gateway w with
  | Some e => (errorResponse e (w_total w), None)
  | None =>
      let execEnv := option_map buildCredentialEnvVars (api_credentials request) in
      match run_loop w request execEnv (Z.to_nat (maxI request)) 1 initLoop with
      | (Some e, _) => (errorResponse e (w_total w), None)
      | (None, st) => (buildResponse (multi request) (w_total w) st, Some st)
      end
  end.

Definition executeMissionTask (w : World) (request : MissionExecuteRequest) : MissionExecuteResponse :=
  fst (executeMissionTask_traced w request).

(** ** POSIX word splitting of one simple command

    Used to read back the command built by [buildCommand]: outside quotes a
    blank ends a word, a backslash quotes the next character and ['] opens a
    single-quoted run; inside, every character is literal up to the next [']. *)
Module Shell.

Inductive Mode := Plain | Quoted | Esc.

Definition is_blank (c : ascii) : bool :=
  orb (Ascii.eqb c " "%char) (orb (Ascii.eqb c (ascii_of_nat 9)) (Ascii.eqb c (ascii_of_nat 10))).

Definition word (cur : option string) : string :=
  match cur with Some w => w | None => "" end.

Definition push (cur : option string) (acc : list string) : list string :=
  match cur with Some w => w :: acc | None => acc end.

(** [None] is a syntax error (unterminated quote or trailing backslash). *)
Fixpoint lex (s : string) (m : Mode) (cur : option string) (acc : list string)
    : option (list string) :=
  match s with
  | EmptyString =>
      match m with
      | Plain => Some (rev (push cur acc))
      | _ => None
      end
  | String c s' =>
      match m with
      | Quoted =>
          if Ascii.eqb c "'"%char then lex s' Plain cur acc
          else lex s' Quoted (Some (word cur ++ String c "")) acc
      | Esc => lex s' Plain (Some (word cur ++ String c "")) acc
      | Plain =>
          if Ascii.eqb c "'"%char then lex s' Quoted (Some (word cur)) acc
          else if Ascii.eqb c "\"%char then lex s' Esc (Some (word cur)) acc
          else if is_blank c then lex s' Plain None (push cur acc)
          else lex s' Plain (Some (word cur ++ String c "")) acc
      end
  end.

Definition words (s : string) : option (list string) := lex s Plain None [].

End Shell.

(** ** Vocabulary of the properties and sample inputs *)

Definition req_single : MissionExecuteRequest :=
  mkRequest "backend" "t1" "Build it" "" "soul"
    None None None None None None None None None.

Definition req_multi : MissionExecuteRequest :=
  mkRequest "backend" "t1" "Build it" "" "soul"
    None None None None None None None None (Some 3).

(** The parts of the follow-up prompt before and after the previous output. *)
Definition followUpHead (request : MissionExecuteRequest) (turn : Z) : string :=
  "# Agent: " ++ agent_id request ++ " (Turn " ++ show_Z turn ++ ")" ++ SECTION_SEP ++
  "# Previous Turn Output

".

Definition followUpTail (request : MissionExecuteRequest) (isFinalTurn : bool) : string :=
  SECTION_SEP ++ "# Task Reminder

**Task ID:** " ++ task_id request ++ "
**Subject:** " ++ task_subject request ++ SECTION_SEP ++
  FOLLOW_UP_INSTRUCTIONS ++ (if isFinalTurn then FINAL_TURN_NOTE else "").

(** [c.repeat(n)] *)
Fixpoint repeat_char (n : nat) (c : ascii) : string :=
  match n with O => EmptyString | S n' => String c (repeat_char n' c) end.

Definition body_sample : list (string * JSON) :=
  [("agent_id", JStr "backend"); ("task_id", JStr "t1"); ("task_subject", JStr "Build it");
   ("task_description", JStr ""); ("soul_content", JStr "soul");
   ("max_iterations", JNum (7 # 2))].

Definition is_valid (v : Validation) : bool :=
  match v with Valid _ => true | Invalid _ => false end.

(** [creds[k]] for a present value or [undefined]. *)
Definition prop_opt (v : option JSON) (k : string) : option JSON :=
  match v with Some j => prop j k | None => None end.

(** The three ways a credentials value is rejected: not an object, no
    recognised provider name, or no non-empty string api key. *)
Definition credentials_rejected (v : option JSON) : Prop :=
  not_object v = true \/
  (forall ps, as_string (prop_opt v "provider") = Some ps -> provider_of_string ps = None) \/
  (forall k, as_string (prop_opt v "api_key") = Some k -> k = "").

Definition COMMAND_WORDS : list string :=
  ["openclaw"; "chat"; "--once"; "--url"; "ws://localhost:18789"].

Definition obs_completed (o : TurnObs) : bool := checkCompletion (ob_stdout o) (ob_exit o).

Definition obs_record (o : TurnObs) : TurnOutput :=
  mkTurnOutput (ob_turn o) (ob_stdout o) (ob_duration o) (obs_completed o).

Definition last_stdout (log : list TurnObs) : string :=
  fold_left (fun _ o => ob_stdout o) log "".

(** The last non-empty stderr of the executed turns ([""] if none). *)
Definition last_stderr (log : list TurnObs) : string :=
  fold_left (fun acc o => if truthy (ob_stderr o) then ob_stderr o else acc) log "".

Definition turn_indices (n : nat) : list Z := map Z.of_nat (seq 1 n).

Section LoopSpec.
Variables (w : World) (request : MissionExecuteRequest).

(** A turn after which the loop went on. *)
Definition continued (o : TurnObs) : Prop := obs_completed o = false /\ ob_turn o < (maxI request).

(** The state at the head of iteration [turn]. *)
Definition loop_inv (turn : Z) (st : LoopState) : Prop :=
  (turn = 1 \/ turn <= (maxI request)) /\ 1 <= turn /\
  turnOutputs st = map obs_record (ls_log st) /\
  map ob_turn (ls_log st) = turn_indices (Z.to_nat (turn - 1)) /\
  finalOutput st = last_stdout (ls_log st) /\
  lastStderr st = last_stderr (ls_log st) /\
  finalSuccess st = false /\ ls_stop st = None /\
  Forall continued (ls_log st).

Definition stop_ok (st : LoopState) : Prop :=
  match ls_stop st with
  | None => ls_log st = [] /\ finalSuccess st = false /\ (maxI request) < 1
  | Some (StopBudget n) =>
      finalSuccess st = false /\ Z.of_nat (length (ls_log st)) = n - 1 /\ 1 <= n <= (maxI request) /\
      turnTimeout (multi request) (w_elapsed w n) = None /\ Forall continued (ls_log st)
  | Some StopFailed =>
      exists pre o, ls_log st = app pre [o] /\ Forall continued pre /\
        ob_turn o = (maxI request) /\ ob_exit o <> 0 /\ finalSuccess st = false
  | Some StopSuccess =>
      exists pre o, ls_log st = app pre [o] /\ Forall continued pre /\
        obs_completed o = true /\ (ob_turn o < (maxI request) \/ ob_exit o = 0) /\ finalSuccess st = true
  | Some StopExhausted =>
      exists pre o, ls_log st = app pre [o] /\ Forall continued pre /\
        ob_turn o = (maxI request) /\ ob_exit o = 0 /\ obs_completed o = false /\ finalSuccess st = true
  end.

(** What holds of the state the loop exits with. *)
Definition final_ok (st : LoopState) : Prop :=
  turnOutputs st = map obs_record (ls_log st) /\
  map ob_turn (ls_log st) = turn_indices (length (ls_log st)) /\
  (length (ls_log st) <= Z.to_nat (maxI request))%nat /\
  finalOutput st = last_stdout (ls_log st) /\
  lastStderr st = last_stderr (ls_log st) /\
  stop_ok st.

End LoopSpec.

(** The [error] text of [buildResponse], in terms of the executed turns. *)
Definition expected_error (log : list TurnObs) : string :=
  if truthy (last_stderr log) then slice_prefix (last_stderr log) 500
  else if truthy (last_stdout log)
  then "Task not completed after " ++ show_Z (Z.of_nat (length log)) ++ " turn(s)"
  else "No output produced".

Definition last_exit (log : list TurnObs) : option Z :=
  fold_left (fun _ o => Some (ob_exit o)) log None.

(** The gateway took 100 s to come up; turn 1 exits 0 with a short output
    and runs 120 s, so 220 s have elapsed when turn 2 would start. *)
Definition world_budget : World :=
  mkWorld None (fun n => if n =? 1 then 100000 else 220000)
    (fun _ _ _ _ => Finished (Some "hi") None (Some 0) 120000) 230000.

(** [ensureMoltbotGateway] throws. *)
Definition world_down : World :=
  mkWorld (Some (Some "Moltbot gateway failed to start")) (fun _ => 0)
    (fun _ _ _ _ => Threw None) 5000.

(** Turn 1 exits 1 but prints the marker; later turns would exit 1 with
    stderr. *)
Definition world_marker : World :=
  mkWorld None (fun n => 1000 * n)
    (fun n _ _ _ => if n =? 1 then Finished (Some "partial [TASK_COMPLETE]") (Some "warn") (Some 1) 10
                    else Finished (Some "") (Some "boom") (Some 1) 10) 5000.

(** Every turn exits 1 with an error on stderr. *)
Definition world_fail : World :=
  mkWorld None (fun n => 1000 * n)
    (fun _ _ _ _ => Finished (Some "out [TASK_COMPLETE]") (Some "fatal: crash") None 10) 5000.

(** Does [s] hold the character [c]? *)
Fixpoint has_char (c : ascii) (s : string) : bool :=
  match s with
  | EmptyString => false
  | String d s' => if Ascii.eqb d c then true else has_char c s'
  end.

(** A [base_url] read through [if (credentials.base_url)]. *)
Definition given_url (b : option string) : option string :=
  match b with Some (String c u) => Some (String c u) | _ => None end.

(** The documented AI Gateway endpoint prefix. *)
Definition CF_GATEWAY_PREFIX : string := "https://gateway.ai.cloudflare.com/v1/".

(** The keywords [detectActionBlockTask] looks for. *)
Definition PLANNING_KEYWORDS : list string :=
  ["create tasks"; "generate tasks"; "plan tasks"; "break down"; "task plan"].

Definition req_negative : MissionExecuteRequest :=
  mkRequest "backend" "t1" "Build it" "" "soul"
    None None None None None None None None (Some (-2)).

(** Turn 1 prints a short clean output, turn 2 the marker. *)
Definition world_two : World :=
  mkWorld None (fun n => 1000 * n)
    (fun n _ _ _ => if n =? 1 then Finished (Some "short") None (Some 0) 10
                    else Finished (Some "ok [TASK_COMPLETE]") None (Some 0) 10) 5000.

(** Every turn exits 0 with a short output and no marker. *)
Definition world_clean : World :=
  mkWorld None (fun n => 1000 * n)
    (fun _ _ _ _ => Finished (Some "done") None (Some 0) 10) 5000.

(** * Properties *)

(** ** Sample runs *)

Example checkCompletion_marker_nonzero :
  checkCompletion "error: failed [TASK_COMPLETE]" 1 = true.
Proof. reflexivity. Qed.

Example checkCompletion_short_clean : checkCompletion "done" 0 = false.
Proof. reflexivity. Qed.

Example turnTimeout_samples :
  turnTimeout false 999999 = Some 300000 /\ turnTimeout true 0 = Some 180000 /\
  turnTimeout true 210000 = Some 60000 /\ turnTimeout true 210001 = None.
Proof. repeat split. Qed.

(** ** Completion classifier *)

(** C2: a [[TASK_COMPLETE]] marker makes [checkCompletion] return [true]
    whatever the exit code and whatever failure words the output holds;
    without the marker a non-zero exit code makes it return [false]. *)
Theorem checkCompletion_marker_first : forall (out : string) (exitCode : Z),
  (includes out TASK_COMPLETE = true -> checkCompletion out exitCode = true) /\
  (includes out TASK_COMPLETE = false -> exitCode <> 0 ->
   checkCompletion out exitCode = false).
Proof.
  intros out exitCode; split; intros H; unfold checkCompletion; rewrite H.
  - reflexivity.
  - intros Hne. apply Z.eqb_neq in Hne. rewrite Hne. reflexivity.
Qed.

Lemma checkCompletion_marker_first_witness :
  checkCompletion "error: [TASK_COMPLETE]" 2 = true /\
  checkCompletion "all good" 2 = false.
Proof.
  split.
  - apply (proj1 (checkCompletion_marker_first "error: [TASK_COMPLETE]" 2)).
    reflexivity.
  - apply (proj2 (checkCompletion_marker_first "all good" 2)); [reflexivity | lia].
Defined.

(** ** Time-budget allocator *)

(** C3: with [max_iterations = 1] the timeout is always the legacy 300000 ms;
    with [max_iterations > 1] no turn starts exactly when
    [270000 - elapsed < 60000], and otherwise the timeout is
    [min(270000 - elapsed, 180000)]. *)
Theorem turnTimeout_policy : forall (request : MissionExecuteRequest) (elapsed : Z),
  (maxIterations request = 1 ->
   turnTimeout (isMultiTurn request) elapsed = Some 300000) /\
  (1 < maxIterations request ->
   (turnTimeout (isMultiTurn request) elapsed = None <-> 270000 - elapsed < 60000) /\
   (60000 <= 270000 - elapsed ->
    turnTimeout (isMultiTurn request) elapsed = Some (Z.min (270000 - elapsed) 180000))).
Proof.
  intros request elapsed; unfold isMultiTurn, turnTimeout,
    MULTI_TURN_TOTAL_BUDGET_MS, MULTI_TURN_MIN_REMAINING_MS, MULTI_TURN_PER_TURN_CAP_MS.
  split.
  - intros H; rewrite H; reflexivity.
  - intros H. assert (Hm : (1 <? maxIterations request) = true) by (apply Z.ltb_lt; exact H).
    rewrite Hm; cbn [negb]. split.
    + destruct (270000 - elapsed <? 60000) eqn:E.
      * apply Z.ltb_lt in E. split; auto.
      * apply Z.ltb_ge in E. split; [discriminate | lia].
    + intros Hge. assert (E : (270000 - elapsed <? 60000) = false) by (apply Z.ltb_ge; lia).
      rewrite E; reflexivity.
Qed.

Lemma turnTimeout_policy_witness :
  turnTimeout (isMultiTurn req_single) 500000 = Some 300000 /\
  turnTimeout (isMultiTurn req_multi) 215000 = None /\
  turnTimeout (isMultiTurn req_multi) 150000 = Some 120000.
Proof.
  split; [|split].
  - apply (proj1 (turnTimeout_policy req_single 500000)); reflexivity.
  - apply (proj1 (proj2 (turnTimeout_policy req_multi 215000) eq_refl)); lia.
  - rewrite (proj2 (proj2 (turnTimeout_policy req_multi 150000) eq_refl)); [reflexivity | lia].
Defined.

(** ** String lemmas *)

Lemma str_app_assoc : forall a b c : string, (a ++ b) ++ c = a ++ (b ++ c).
Proof. induction a as [|x a IH]; intros b c; simpl; [reflexivity | now rewrite IH]. Qed.

Lemma str_app_nil_r : forall a : string, a ++ "" = a.
Proof. induction a as [|x a IH]; simpl; [reflexivity | now rewrite IH]. Qed.

Lemma str_app_length : forall a b : string,
  String.length (a ++ b) = (String.length a + String.length b)%nat.
Proof. induction a as [|x a IH]; intros b; simpl; [reflexivity | now rewrite IH]. Qed.

Lemma substring_all : forall s, substring 0 (String.length s) s = s.
Proof. induction s as [|c s IH]; simpl; [reflexivity | now rewrite IH]. Qed.

Lemma substring_split : forall s k, (k <= String.length s)%nat ->
  s = substring 0 k s ++ substring k (String.length s - k) s.
Proof.
  induction s as [|c s IH]; intros k Hk; simpl in *.
  - destruct k; reflexivity.
  - destruct k as [|k]; simpl.
    + now rewrite substring_all.
    + f_equal. apply IH. lia.
Qed.

Lemma substring_length : forall s k n, (k + n <= String.length s)%nat ->
  String.length (substring k n s) = n.
Proof.
  induction s as [|c s IH]; intros k n Hk; simpl in *.
  - destruct k, n; simpl in *; lia.
  - destruct k as [|k].
    + destruct n as [|n]; simpl; [reflexivity|]. f_equal. apply (IH 0%nat). lia.
    + apply IH. lia.
Qed.

(** ** Follow-up prompt *)

Example truncate_samples :
  truncatePrevious (repeat_char 8000 "a") = repeat_char 8000 "a" /\
  truncatePrevious (String "b" (repeat_char 8000 "a")) =
    TRUNCATION_NOTICE ++ repeat_char 8000 "a".
Proof. split; vm_compute; reflexivity. Qed.

(** C7: the follow-up prompt embeds the previous output between a fixed head
    and tail; an output of more than 8000 characters is replaced by the
    truncation notice followed by exactly its last 8000 characters, and an
    output of at most 8000 characters (8000 included) is embedded unchanged. *)
Theorem followUp_truncation : forall (request : MissionExecuteRequest) (turn : Z)
    (previousOutput : string) (isFinalTurn : bool),
  buildFollowUpTurnPrompt request turn previousOutput isFinalTurn =
    followUpHead request turn ++ truncatePrevious previousOutput ++
    followUpTail request isFinalTurn /\
  ((String.length previousOutput <= 8000)%nat ->
   truncatePrevious previousOutput = previousOutput) /\
  ((8000 < String.length previousOutput)%nat ->
   exists dropped lastPart,
     previousOutput = dropped ++ lastPart /\
     String.length lastPart = 8000%nat /\
     truncatePrevious previousOutput = TRUNCATION_NOTICE ++ lastPart).
Proof.
  intros request turn prev fin. split; [|split].
  - unfold buildFollowUpTurnPrompt, followUpHead, followUpTail. cbn [join].
    repeat rewrite str_app_assoc. reflexivity.
  - intros H. unfold truncatePrevious.
    replace (Nat.ltb maxPreviousLength (String.length prev)) with false; [reflexivity|].
    symmetry. apply Nat.ltb_ge. unfold maxPreviousLength. lia.
  - intros H. unfold truncatePrevious, slice_last.
    replace (Nat.ltb maxPreviousLength (String.length prev)) with true
      by (symmetry; apply Nat.ltb_lt; unfold maxPreviousLength; lia).
    exists (substring 0 (String.length prev - maxPreviousLength) prev).
    exists (substring (String.length prev - maxPreviousLength) maxPreviousLength prev).
    split; [|split; [|reflexivity]].
    + pose proof (substring_split prev (String.length prev - maxPreviousLength)) as E.
      replace (String.length prev - (String.length prev - maxPreviousLength))%nat
        with maxPreviousLength in E by (unfold maxPreviousLength in *; lia).
      apply E. lia.
    + apply substring_length. unfold maxPreviousLength in *; lia.
Qed.

Lemma followUp_truncation_witness :
  truncatePrevious (repeat_char 8000 "a") = repeat_char 8000 "a" /\
  exists dropped lastPart,
    String "b" (repeat_char 8000 "a") = dropped ++ lastPart /\
    String.length lastPart = 8000%nat /\
    truncatePrevious (String "b" (repeat_char 8000 "a")) = TRUNCATION_NOTICE ++ lastPart.
Proof.
  split.
  - apply (proj1 (proj2 (followUp_truncation req_multi 2 (repeat_char 8000 "a") false))).
    apply Nat.leb_le. vm_compute. reflexivity.
  - apply (proj2 (proj2 (followUp_truncation req_multi 2 (String "b" (repeat_char 8000 "a")) false))).
    apply Nat.ltb_lt. vm_compute. reflexivity.
Defined.

(** ** Credential environment *)

Example cloudflare_ids_sample :
  buildCredentialEnvVars (mkApiCredentials cloudflare_ai_gateway "k"
    (Some "https://gateway.ai.cloudflare.com/v1/acc/gw")) =
  [("CLOUDFLARE_AI_GATEWAY_API_KEY", "k"); ("CF_AI_GATEWAY_ACCOUNT_ID", "acc");
   ("CF_AI_GATEWAY_GATEWAY_ID", "gw")].
Proof. reflexivity. Qed.

(** C8 as stated fails: an [xai] credential whose [base_url] is the empty
    string (which [validateApiCredentials] keeps) does not get that value
    verbatim: [credentials.base_url || 'https://api.x.ai/v1'] falls back to
    the default. *)
Lemma xai_base_url_counterexample :
  ~ (forall (key url : string), key <> "" ->
       env_get "OPENAI_BASE_URL"
         (buildCredentialEnvVars (mkApiCredentials xai key (Some url))) = Some url).
Proof.
  intros H. specialize (H "xai-key" "" ltac:(discriminate)). discriminate H.
Qed.

(** C8 (amended): for an [xai] credential, [OPENAI_API_KEY] is the api key
    and [OPENAI_BASE_URL] is the [base_url] verbatim when it is a non-empty
    string, and ["https://api.x.ai/v1"] when it is absent or empty. *)
Theorem xai_env_vars : forall (key : string) (base : option string),
  env_get "OPENAI_API_KEY" (buildCredentialEnvVars (mkApiCredentials xai key base)) = Some key /\
  env_get "OPENAI_BASE_URL" (buildCredentialEnvVars (mkApiCredentials xai key base)) =
    Some (match base with
          | Some (String c u) => String c u
          | _ => "https://api.x.ai/v1"
          end).
Proof. intros key [[|c u]|]; split; reflexivity. Qed.

(** ** Request validation *)

Example validate_sample :
  validateMissionRequest (JObj body_sample) =
  Valid (mkRequest "backend" "t1" "Build it" "" "soul"
           None None None None None None None None (Some 3)).
Proof. reflexivity. Qed.

Lemma assoc_last_snoc : forall k k' v fs,
  assoc_last k (app fs [(k', v)]) = if String.eqb k k' then Some v else assoc_last k fs.
Proof.
  intros k k' v fs. induction fs as [|[k0 v0] fs IH]; simpl.
  - destruct (String.eqb k k'); reflexivity.
  - rewrite IH. destruct (String.eqb k k'); [reflexivity|].
    destruct (assoc_last k fs); reflexivity.
Qed.

Lemma prop_snoc_other : forall fs k k' v, String.eqb k k' = false ->
  prop (JObj (app fs [(k', v)])) k = prop (JObj fs) k.
Proof. intros fs k k' v H. simpl. rewrite assoc_last_snoc, H. reflexivity. Qed.

Lemma prop_default : forall v k,
  prop (match v with Some j => j | None => JNull end) k = prop_opt v k.
Proof. intros [j|] k; reflexivity. Qed.

Lemma validate_request_credentials : forall body r,
  validateMissionRequest body = Valid r ->
  api_credentials r = validateApiCredentials (prop body "api_credentials").
Proof.
  intros body r H. unfold validateMissionRequest in H.
  destruct (not_object (Some body)); [discriminate|].
  destruct (nonempty_string (prop body "agent_id")); [|discriminate].
  destruct (nonempty_string (prop body "task_id")); [|discriminate].
  destruct (nonempty_string (prop body "task_subject")); [|discriminate].
  destruct (as_string (prop body "task_description")); [|discriminate].
  destruct (nonempty_string (prop body "soul_content")); [|discriminate].
  injection H as <-. reflexivity.
Qed.

Lemma validate_request_valid_snoc : forall fs c,
  is_valid (validateMissionRequest (JObj (app fs [("api_credentials", c)]))) =
  is_valid (validateMissionRequest (JObj fs)).
Proof.
  intros fs c. unfold validateMissionRequest.
  rewrite !(prop_snoc_other fs _ "api_credentials" c) by reflexivity.
  cbn [not_object negb].
  destruct (nonempty_string (prop (JObj fs) "agent_id")); [|reflexivity].
  destruct (nonempty_string (prop (JObj fs) "task_id")); [|reflexivity].
  destruct (nonempty_string (prop (JObj fs) "task_subject")); [|reflexivity].
  destruct (as_string (prop (JObj fs) "task_description")); [|reflexivity].
  destruct (nonempty_string (prop (JObj fs) "soul_content")); reflexivity.
Qed.

(** C9: a credentials value never decides whether a request validates;
    the validated request carries [validateApiCredentials] of the field,
    which is [undefined] for a non-object, an unrecognised provider or a
    missing or empty api key, and otherwise keeps provider, api key and
    (string) base URL. *)
Theorem credentials_soft_validation :
  forall (fs : list (string * JSON)) (c : JSON) (v : option JSON),
  is_valid (validateMissionRequest (JObj (app fs [("api_credentials", c)]))) =
    is_valid (validateMissionRequest (JObj fs)) /\
  (forall r, validateMissionRequest (JObj (app fs [("api_credentials", c)])) = Valid r ->
     api_credentials r = validateApiCredentials (Some c)) /\
  (credentials_rejected v -> validateApiCredentials v = None) /\
  (forall ps p k,
     as_string (prop_opt v "provider") = Some ps -> provider_of_string ps = Some p ->
     as_string (prop_opt v "api_key") = Some k -> k <> "" ->
     validateApiCredentials v = Some (mkApiCredentials p k (as_string (prop_opt v "base_url")))).
Proof.
  intros fs c v. split; [|split; [|split]].
  - apply validate_request_valid_snoc.
  - intros r H. rewrite (validate_request_credentials _ _ H). simpl.
    rewrite assoc_last_snoc. reflexivity.
  - intros [Hno | [Hprov | Hkey]]; unfold validateApiCredentials.
    + rewrite Hno. reflexivity.
    + destruct (not_object v); [reflexivity|]. rewrite !prop_default.
      destruct (as_string (prop_opt v "provider")) as [ps|]; [|reflexivity].
      rewrite (Hprov ps eq_refl). reflexivity.
    + destruct (not_object v); [reflexivity|]. rewrite !prop_default.
      destruct (as_string (prop_opt v "provider")) as [ps|]; [|reflexivity].
      destruct (provider_of_string ps); [|reflexivity].
      destruct (as_string (prop_opt v "api_key")) as [k|]; [|reflexivity].
      rewrite (Hkey k eq_refl). reflexivity.
  - intros ps p k Hp Hps Hk Hne. unfold validateApiCredentials.
    destruct v as [j|]; [|discriminate Hp].
    destruct j; try discriminate Hp; cbn [not_object];
      change (prop_opt (Some ?x) ?y) with (prop x y) in *;
      rewrite Hp, Hps, Hk; destruct k; [contradiction | reflexivity].
Qed.

Lemma credentials_soft_validation_witness :
  is_valid (validateMissionRequest (JObj (app body_sample [("api_credentials", JStr "x")]))) = true /\
  validateApiCredentials (Some (JObj [("provider", JStr "acme"); ("api_key", JStr "k")])) = None /\
  validateApiCredentials (Some (JObj [("provider", JStr "xai"); ("api_key", JStr "k");
                                      ("base_url", JStr "https://u")])) =
    Some (mkApiCredentials xai "k" (Some "https://u")).
Proof.
  split; [|split].
  - rewrite (proj1 (credentials_soft_validation body_sample (JStr "x") None)). reflexivity.
  - apply (proj1 (proj2 (proj2 (credentials_soft_validation body_sample (JStr "x")
      (Some (JObj [("provider", JStr "acme"); ("api_key", JStr "k")])))))).
    right; left. intros ps H. injection H as <-. reflexivity.
  - apply (proj2 (proj2 (proj2 (credentials_soft_validation body_sample (JStr "x")
      (Some (JObj [("provider", JStr "xai"); ("api_key", JStr "k");
                   ("base_url", JStr "https://u")])))))) with (ps := "xai");
      try reflexivity. discriminate.
Defined.

(** ** Shell quoting of the command *)

Lemma lex_escaped : forall p w acc rest,
  Shell.lex (escapePrompt p ++ rest) Shell.Quoted (Some w) acc =
  Shell.lex rest Shell.Quoted (Some (w ++ p)) acc.
Proof.
  induction p as [|c p IH]; intros w acc rest.
  - simpl. now rewrite str_app_nil_r.
  - unfold escapePrompt. cbn [replace_all].
    destruct (Ascii.eqb c "'"%char) eqn:E.
    + apply Ascii.eqb_eq in E; subst c. simpl.
      fold (escapePrompt p). rewrite IH, str_app_assoc. reflexivity.
    + cbn [String.append Shell.lex]. rewrite E.
      fold (escapePrompt p). rewrite IH. cbn [Shell.word].
      rewrite str_app_assoc. reflexivity.
Qed.

(** C10: the prompt is escaped ([ '] becomes ['\'']) and single-quoted, so
    shell word splitting gives the prompt back, alone or as the last word of
    the command; [model_override] is pasted between single quotes unescaped,
    so an override holding a quote breaks the command's quoting. *)
Theorem command_quoting :
  (forall prompt, Shell.words ("'" ++ escapePrompt prompt ++ "'") = Some [prompt]) /\
  (forall prompt, Shell.words (buildCommand None prompt) = Some (app COMMAND_WORDS [prompt])) /\
  (forall c m prompt, buildCommand (Some (String c m)) prompt =
     "openclaw chat --once --url ws://localhost:18789 --model '" ++ String c m ++ "'" ++
     " '" ++ escapePrompt prompt ++ "'") /\
  (exists m prompt, has_char "'" m = true /\
     Shell.words (buildCommand (Some m) prompt) = None /\
     Shell.words (buildCommand (Some m) prompt) <>
       Some (app COMMAND_WORDS ["--model"; m; prompt])).
Proof.
  split; [|split; [|split]].
  - intros prompt. unfold Shell.words. cbn [String.append Shell.lex Ascii.eqb Shell.word].
    rewrite lex_escaped. reflexivity.
  - intros prompt. unfold buildCommand, Shell.words. cbn [opt_truthy].
    cbn -[escapePrompt]. rewrite lex_escaped. reflexivity.
  - intros c m prompt. unfold buildCommand. cbn [opt_truthy truthy].
    rewrite !str_app_assoc. reflexivity.
  - exists "a'b", "x". split; [reflexivity|]. split; [vm_compute; reflexivity|].
    vm_compute. discriminate.
Qed.

(** ** The execution loop *)

Section LoopProofs.
Variables (w : World) (request : MissionExecuteRequest) (execEnv : option Env).

Lemma turn_indices_length : forall n, length (turn_indices n) = n.
Proof. intros n. unfold turn_indices. now rewrite length_map, length_seq. Qed.

Lemma turn_indices_snoc : forall n,
  turn_indices (S n) = app (turn_indices n) [Z.of_nat (S n)].
Proof.
  intros n. unfold turn_indices. rewrite seq_S, map_app. reflexivity.
Qed.

Lemma loop_inv_init : loop_inv request 1 initLoop.
Proof. repeat split; auto; lia. Qed.

Lemma fold_last_snoc : forall {A B} (f : A -> B -> A) l x a,
  fold_left f (app l [x]) a = f (fold_left f l a) x.
Proof. intros. now rewrite fold_left_app. Qed.

(** The shape of one iteration that ran its turn. *)
Lemma loop_body_ran : forall turn st r,
  loop_body w request execEnv turn st = r ->
  (turnTimeout (multi request) (w_elapsed w turn) = None /\
   r = Break (mkLoop (turnOutputs st) (finalOutput st) (finalSuccess st) (lastStderr st)
                     (ls_log st) (Some (StopBudget turn)))) \/
  (exists e, r = Raise e) \/
  (exists o lastStderr',
     ob_turn o = turn /\
     lastStderr' = (if truthy (ob_stderr o) then ob_stderr o else lastStderr st) /\
     let outs := app (turnOutputs st) [obs_record o] in
     let log := app (ls_log st) [o] in
     r = (if andb (negb (ob_exit o =? 0)) (turn =? (maxI request)) then
            Break (mkLoop outs (ob_stdout o) false lastStderr' log (Some StopFailed))
          else if obs_completed o then
            Break (mkLoop outs (ob_stdout o) true lastStderr' log (Some StopSuccess))
          else if turn =? (maxI request) then
            Break (mkLoop outs (ob_stdout o) (ob_exit o =? 0) lastStderr' log (Some StopExhausted))
          else Continue (mkLoop outs (ob_stdout o) (finalSuccess st) lastStderr' log None))).
Proof.
  intros turn st r H. unfold loop_body in H.
  destruct (turnTimeout (multi request) (w_elapsed w turn)) as [tm|] eqn:Et.
  2:{ left. split; [reflexivity | now subst r]. }
  right. cbv zeta in H.
  match type of H with context [w_run ?a ?b ?c ?d ?f] =>
    destruct (w_run a b c d f) as [msg|so se ec dur] end.
  - left. exists msg. now subst r.
  - right.
    exists (mkObs turn (match so with Some s => or_str s "" | None => "" end)
                       (match se with Some s => or_str s "" | None => "" end)
                       (match ec with Some c => c | None => 1 end) dur).
    eexists. split; [reflexivity|]. split; [reflexivity|]. cbv zeta.
    subst r. reflexivity.
Qed.

Lemma log_length_inv : forall turn st, loop_inv request turn st ->
  length (ls_log st) = Z.to_nat (turn - 1).
Proof.
  intros turn st (_ & _ & _ & Hidx & _).
  rewrite <- (turn_indices_length (Z.to_nat (turn - 1))), <- Hidx, length_map.
  reflexivity.
Qed.

(** Facts shared by every iteration that appends turn [o]. *)
Lemma snoc_common : forall turn st o, loop_inv request turn st -> turn <= (maxI request) -> ob_turn o = turn ->
  app (turnOutputs st) [obs_record o] = map obs_record (app (ls_log st) [o]) /\
  map ob_turn (app (ls_log st) [o]) = turn_indices (length (app (ls_log st) [o])) /\
  map ob_turn (app (ls_log st) [o]) = turn_indices (Z.to_nat (turn + 1 - 1)) /\
  (length (app (ls_log st) [o]) <= Z.to_nat (maxI request))%nat /\
  ob_stdout o = last_stdout (app (ls_log st) [o]) /\
  (if truthy (ob_stderr o) then ob_stderr o else lastStderr st) =
    last_stderr (app (ls_log st) [o]).
Proof.
  intros turn st o Hinv Hle Ho.
  pose proof (log_length_inv _ _ Hinv) as Hlen.
  destruct Hinv as (_ & H1 & Houts & Hidx & Hout & Herr & _).
  assert (Hn : Z.to_nat (turn + 1 - 1) = S (Z.to_nat (turn - 1))) by lia.
  assert (Hidx' : map ob_turn (app (ls_log st) [o]) = turn_indices (Z.to_nat (turn + 1 - 1))).
  { rewrite Hn, turn_indices_snoc, map_app, Hidx. simpl. rewrite Ho. do 2 f_equal. lia. }
  assert (Hl : length (app (ls_log st) [o]) = Z.to_nat (turn + 1 - 1)).
  { rewrite length_app, Hlen, Hn. simpl. lia. }
  split; [|split; [|split; [|split; [|split]]]].
  - now rewrite map_app, Houts.
  - now rewrite Hl.
  - exact Hidx'.
  - rewrite Hl. lia.
  - unfold last_stdout. now rewrite fold_last_snoc.
  - rewrite Herr. unfold last_stderr. now rewrite fold_last_snoc.
Qed.

Lemma loop_continue : forall turn st st',
  loop_inv request turn st -> turn <= (maxI request) ->
  loop_body w request execEnv turn st = Continue st' -> loop_inv request (turn + 1) st'.
Proof.
  intros turn st st' Hinv Hle H.
  destruct (loop_body_ran _ _ _ H) as [[_ Hr] | [[e Hr] | (o & ls & Ho & Hls & Hr)]];
    try discriminate Hr.
  destruct (andb (negb (ob_exit o =? 0)) (turn =? (maxI request))) eqn:E1; [discriminate|].
  destruct (obs_completed o) eqn:E2; [discriminate|].
  destruct (turn =? (maxI request)) eqn:E3; [discriminate|].
  injection Hr as Hr; subst st'. apply Z.eqb_neq in E3.
  destruct (snoc_common turn st o Hinv Hle Ho) as (Houts & _ & Hidx & _ & Hout & Herr).
  pose proof Hinv as (_ & H1 & _ & _ & _ & _ & Hsucc & _ & Hall).
  unfold loop_inv; cbn [turnOutputs finalOutput lastStderr ls_log finalSuccess ls_stop].
  split; [right; lia|]. split; [lia|].
  split; [exact Houts|]. split; [exact Hidx|]. split; [exact Hout|].
  split; [subst ls; exact Herr|]. split; [exact Hsucc|]. split; [reflexivity|].
  apply Forall_app. split; [exact Hall|]. constructor; [|constructor].
  split; [exact E2 | lia].
Qed.

Lemma loop_break : forall turn st st',
  loop_inv request turn st -> turn <= (maxI request) ->
  loop_body w request execEnv turn st = Break st' -> final_ok w request st'.
Proof.
  intros turn st st' Hinv Hle H.
  pose proof (log_length_inv _ _ Hinv) as Hlen.
  destruct (loop_body_ran _ _ _ H) as [[Ht Hr] | [[e Hr] | (o & ls & Ho & Hls & Hr)]];
    try discriminate Hr.
  - injection Hr as Hr; subst st'.
    destruct Hinv as (_ & H1 & Houts & Hidx & Hout & Herr & Hsucc & _ & Hall).
    unfold final_ok, stop_ok; cbn [turnOutputs finalOutput lastStderr ls_log finalSuccess ls_stop].
    rewrite Hlen. repeat split; auto; lia.
  - destruct (snoc_common turn st o Hinv Hle Ho) as (Houts & Hidx & _ & Hlen' & Hout & Herr).
    pose proof Hinv as (_ & H1 & _ & _ & _ & _ & Hsucc & _ & Hall).
    subst ls.
    destruct (andb (negb (ob_exit o =? 0)) (turn =? (maxI request))) eqn:E1;
      [|destruct (obs_completed o) eqn:E2;
        [|destruct (turn =? (maxI request)) eqn:E3; [|discriminate Hr]]];
      injection Hr as Hr; subst st'; unfold final_ok, stop_ok;
      cbn [turnOutputs finalOutput lastStderr ls_log finalSuccess ls_stop];
      (split; [exact Houts|]); (split; [exact Hidx|]); (split; [exact Hlen'|]);
      (split; [exact Hout|]); (split; [exact Herr|]);
      exists (ls_log st), o; (split; [reflexivity|]); (split; [exact Hall|]).
    + apply andb_true_iff in E1 as [E1 E1']. apply negb_true_iff, Z.eqb_neq in E1.
      apply Z.eqb_eq in E1'. repeat split; auto. lia.
    + apply andb_false_iff in E1. repeat split; auto.
      destruct E1 as [E1 | E1].
      * apply negb_false_iff, Z.eqb_eq in E1. now right.
      * apply Z.eqb_neq in E1. left. lia.
    + apply Z.eqb_eq in E3. apply andb_false_iff in E1.
      destruct E1 as [E1 | E1]; [|discriminate E1].
      apply negb_false_iff, Z.eqb_eq in E1.
      rewrite E1. repeat split; auto. lia.
Qed.

Lemma loop_exit_final : forall turn st, loop_inv request turn st -> (maxI request) < turn -> final_ok w request st.
Proof.
  intros turn st Hinv Hlt.
  pose proof (log_length_inv _ _ Hinv) as Hlen.
  destruct Hinv as ([H1 | H1] & _ & Houts & Hidx & Hout & Herr & Hsucc & Hstop & Hall); [|lia].
  subst turn. simpl in Hlen. apply length_zero_iff_nil in Hlen.
  unfold final_ok, stop_ok. rewrite Hstop, Hlen in *.
  repeat split; auto. simpl. lia.
Qed.

Lemma run_loop_final : forall fuel turn st st',
  loop_inv request turn st -> (maxI request) < turn + Z.of_nat fuel ->
  run_loop w request execEnv fuel turn st = (None, st') -> final_ok w request st'.
Proof.
  induction fuel as [|fuel IH]; intros turn st st' Hinv Hf H; simpl in H.
  - injection H as H; subst st'. apply (loop_exit_final turn); [exact Hinv | lia].
  - destruct (turn <=? (maxI request)) eqn:Ele.
    + apply Z.leb_le in Ele.
      destruct (loop_body w request execEnv turn st) as [st1|st1|e] eqn:Eb.
      * apply (IH (turn + 1) st1); [apply (loop_continue turn st); assumption | lia | exact H].
      * injection H as H; subst st'. apply (loop_break turn st); assumption.
      * discriminate H.
    + injection H as H; subst st'. apply Z.leb_gt in Ele.
      apply (loop_exit_final turn); assumption.
Qed.

End LoopProofs.

(** Every completed run of [executeMissionTask] answers [buildResponse] of a
    loop state satisfying [final_ok]; every other run answers the [catch]
    object. *)
Lemma execute_traced_cases : forall w request resp ost,
  executeMissionTask_traced w request = (resp, ost) ->
  match ost with
  | Some st => final_ok w request st /\ resp = buildResponse (multi request) (w_total w) st
  | None => exists e, resp = errorResponse e (w_total w)
  end.
Proof.
  intros w request resp ost H. unfold executeMissionTask_traced in H.
  destruct (w_gateway w) as [e|].
  - injection H as <- <-. now exists e.
  - destruct (run_loop w request (option_map buildCredentialEnvVars (api_credentials request))
                (Z.to_nat (maxI request)) 1 initLoop) as [[e|] st] eqn:Er.
    + injection H as <- <-. now exists e.
    + injection H as <- <-. split; [|reflexivity].
      eapply run_loop_final; [apply loop_inv_init | | exact Er]. lia.
Qed.

Lemma last_record_output : forall log,
  match last (map Some (map obs_record log)) None with
  | Some o => truthy (output o)
  | None => false
  end = truthy (last_stdout log).
Proof.
  induction log as [|o log _] using rev_ind; [reflexivity|].
  rewrite !map_app. simpl map. rewrite last_last.
  unfold last_stdout. rewrite fold_last_snoc. reflexivity.
Qed.

Lemma buildResponse_final : forall w request st,
  final_ok w request st ->
  let resp := buildResponse (multi request) (w_total w) st in
  success resp = finalSuccess st /\
  r_output resp = Some (last_stdout (ls_log st)) /\
  turns_used resp = Some (Z.of_nat (length (ls_log st))) /\
  turn_outputs resp = (if multi request then Some (map obs_record (ls_log st)) else None) /\
  r_error resp = (if finalSuccess st then None else Some (expected_error (ls_log st))).
Proof.
  intros w request st (Houts & _ & _ & Hout & Herr & _). cbn zeta.
  unfold buildResponse; cbn [success r_output turns_used turn_outputs r_error].
  rewrite Houts, Hout, Herr, length_map.
  split; [reflexivity|]. split; [reflexivity|]. split; [reflexivity|].
  split; [reflexivity|].
  destruct (finalSuccess st); [reflexivity|]. f_equal.
  unfold expected_error. destruct (truthy (last_stderr (ls_log st))); [reflexivity|].
  pose proof (last_record_output (ls_log st)) as L.
  destruct (last (map Some (map obs_record (ls_log st))) None) as [o|];
    rewrite <- L; [destruct (truthy (output o))|]; reflexivity.
Qed.

Lemma slice_prefix_length : forall s n, (String.length (slice_prefix s n) <= n)%nat.
Proof.
  unfold slice_prefix. induction s as [|c s IH]; intros [|n]; simpl; try lia.
  specialize (IH n). lia.
Qed.

Lemma checkCompletion_marker : forall out exitCode,
  includes out TASK_COMPLETE = true -> checkCompletion out exitCode = true.
Proof. intros out exitCode H. unfold checkCompletion. now rewrite H. Qed.

(** ** Sample executions *)

Example scenario_B :
  let resp := executeMissionTask
    (mkWorld None (fun n => 1000 * n)
       (fun n _ _ _ => if n =? 1 then Finished (Some "short") None (Some 0) 10
                       else Finished (Some "ok [TASK_COMPLETE]") None (Some 0) 10) 5000)
    req_multi in
  success resp = true /\ turns_used resp = Some 2.
Proof. vm_compute. split; reflexivity. Qed.

Example scenario_D :
  let resp := executeMissionTask world_fail req_single in
  success resp = false /\ r_error resp = Some "fatal: crash" /\ turn_outputs resp = None.
Proof. vm_compute. repeat split. Qed.

(** ** Budget exhaustion *)

(** C1 as stated fails: after a budget stop the result is unsuccessful even
    when the last executed turn exited 0. *)
Lemma budget_stop_counterexample :
  exists resp st,
    executeMissionTask_traced world_budget req_multi = (resp, Some st) /\
    1 < maxIterations req_multi /\
    ls_stop st = Some (StopBudget 2) /\
    last_exit (ls_log st) = Some 0 /\
    success resp = false.
Proof.
  eexists; eexists. split; [vm_compute; reflexivity|].
  repeat split; reflexivity.
Qed.

(** C1 (amended): when no timeout is granted before turn [n] (which happens
    only in multi-turn mode), the loop stops with [n - 1] turns used and
    [success = false], whatever the exit code of the last executed turn; the
    output is that turn's stdout and the error is the usual fallback. *)
Theorem budget_stop_unsuccessful : forall w request resp st n,
  executeMissionTask_traced w request = (resp, Some st) ->
  ls_stop st = Some (StopBudget n) ->
  isMultiTurn request = true /\
  turnTimeout (isMultiTurn request) (w_elapsed w n) = None /\
  success resp = false /\
  turns_used resp = Some (n - 1) /\
  r_output resp = Some (last_stdout (ls_log st)) /\
  r_error resp = Some (expected_error (ls_log st)).
Proof.
  intros w request resp st n H Hstop.
  pose proof (execute_traced_cases _ _ _ _ H) as [Hfin ->].
  pose proof (buildResponse_final _ _ _ Hfin) as (Hs & Ho & Ht & _ & He).
  destruct Hfin as (_ & _ & _ & _ & _ & Hst). unfold stop_ok in Hst. rewrite Hstop in Hst.
  destruct Hst as (Hsucc & Hlen & Hn & Htm & _).
  rewrite Hsucc in Hs, He.
  assert (Hm : isMultiTurn request = true).
  { destruct (isMultiTurn request) eqn:E; [reflexivity|].
    unfold multi in Htm. rewrite E in Htm. discriminate Htm. }
  split; [exact Hm|]. split; [exact Htm|]. split; [exact Hs|].
  split; [rewrite Ht, Hlen; reflexivity|]. split; [exact Ho | exact He].
Qed.

Lemma budget_stop_unsuccessful_witness :
  exists resp st,
    executeMissionTask_traced world_budget req_multi = (resp, Some st) /\
    ls_stop st = Some (StopBudget 2) /\
    success resp = false /\ turns_used resp = Some 1.
Proof.
  eexists; eexists. split; [vm_compute; reflexivity|].
  match goal with |- ls_stop ?st = _ /\ success ?r = false /\ turns_used _ = _ =>
    destruct (budget_stop_unsuccessful world_budget req_multi r st 2)
      as (_ & _ & Hs & Ht & _) end.
  - vm_compute. reflexivity.
  - reflexivity.
  - split; [reflexivity|]. split; [exact Hs | exact Ht].
Defined.

(** ** Final-turn failure *)

Lemma in_snoc_cases : forall {A} (x y : A) pre, In x (app pre [y]) -> In x pre \/ x = y.
Proof.
  intros A x y pre H. apply in_app_or in H as [H | [H | []]]; [now left | now right].
Qed.

(** C4: when the last executed turn is turn [max_iterations] and its exit
    code (unset counting as 1) is non-zero, the result is unsuccessful with
    [turns_used = max_iterations], and its error is the last non-empty
    stderr cut to 500 characters, else "Task not completed after N turn(s)"
    when that turn printed something, else "No output produced"; a
    [[TASK_COMPLETE]] marker in that turn's output changes nothing. *)
Theorem final_turn_failure : forall w request resp st pre o,
  executeMissionTask_traced w request = (resp, Some st) ->
  ls_log st = app pre [o] ->
  ob_turn o = maxIterations request ->
  ob_exit o <> 0 ->
  success resp = false /\
  turns_used resp = Some (maxIterations request) /\
  (truthy (last_stderr (ls_log st)) = true ->
     r_error resp = Some (slice_prefix (last_stderr (ls_log st)) 500) /\
     (String.length (slice_prefix (last_stderr (ls_log st)) 500) <= 500)%nat) /\
  (last_stderr (ls_log st) = "" -> truthy (ob_stdout o) = true ->
     r_error resp = Some ("Task not completed after " ++ show_Z (maxIterations request) ++ " turn(s)")) /\
  (last_stderr (ls_log st) = "" -> ob_stdout o = "" ->
     r_error resp = Some "No output produced").
Proof.
  intros w request resp st pre o H Hlog Hturn Hexit.
  pose proof (execute_traced_cases _ _ _ _ H) as [Hfin ->].
  pose proof (buildResponse_final _ _ _ Hfin) as (Hs & _ & Ht & _ & He).
  destruct Hfin as (_ & Hidx & _ & _ & _ & Hst).
  (* the last index is the number of turns *)
  assert (Hlen : Z.of_nat (length (ls_log st)) = maxIterations request).
  { rewrite Hlog in Hidx |- *. rewrite length_app in *. simpl length in *.
    rewrite Nat.add_1_r, turn_indices_snoc, map_app in Hidx.
    apply app_inj_tail in Hidx as [_ Hidx]. rewrite <- Hturn, Hidx. lia. }
  assert (Hsucc : finalSuccess st = false).
  { unfold stop_ok in Hst. destruct (ls_stop st) as [[n| | |]|].
    - apply Hst.
    - destruct Hst as (? & ? & ? & _ & _ & _ & ?); assumption.
    - destruct Hst as (pre' & o' & Hl & _ & _ & Hor & _).
      rewrite Hlog in Hl. apply app_inj_tail in Hl as [_ <-].
      exfalso. unfold maxI in Hor. lia.
    - destruct Hst as (pre' & o' & Hl & _ & _ & He0 & _).
      rewrite Hlog in Hl. apply app_inj_tail in Hl as [_ <-]. contradiction.
    - apply Hst. }
  rewrite Hsucc in Hs, He.
  assert (Hstdout : last_stdout (ls_log st) = ob_stdout o).
  { rewrite Hlog. unfold last_stdout. now rewrite fold_last_snoc. }
  split; [exact Hs|]. split; [rewrite Ht, Hlen; reflexivity|].
  unfold expected_error in He. rewrite Hstdout, Hlen in He.
  split; [|split].
  - intros Ht'. rewrite Ht' in He. split; [exact He | apply slice_prefix_length].
  - intros E Hout. rewrite E, Hout in He. exact He.
  - intros E Hout. rewrite E, Hout in He. exact He.
Qed.

Lemma final_turn_failure_witness :
  exists resp st o,
    executeMissionTask_traced world_fail req_single = (resp, Some st) /\
    ls_log st = [o] /\ ob_turn o = 1 /\ ob_exit o = 1 /\
    success resp = false /\ r_error resp = Some "fatal: crash".
Proof.
  do 3 eexists. split; [vm_compute; reflexivity|].
  match goal with |- ls_log ?st = _ /\ _ => set (st0 := st) end.
  split; [vm_compute; reflexivity|].
  match goal with |- ob_turn ?o = 1 /\ _ /\ success ?r = false /\ r_error _ = _ =>
    destruct (final_turn_failure world_fail req_single r st0 [] o)
      as (Hs & _ & Herr & _) end.
  - vm_compute. reflexivity.
  - vm_compute. reflexivity.
  - reflexivity.
  - discriminate.
  - split; [reflexivity|]. split; [reflexivity|]. split; [exact Hs|].
    destruct (Herr eq_refl) as [He _]. rewrite He. reflexivity.
Defined.

(** ** Marker on a non-final failing turn *)

(** C5: a turn before the last allowed one that exits non-zero but prints
    [[TASK_COMPLETE]] ends the loop there, with [success = true]. *)
Theorem marker_beats_early_failure : forall w request resp st o,
  executeMissionTask_traced w request = (resp, Some st) ->
  In o (ls_log st) ->
  ob_turn o < maxIterations request ->
  ob_exit o <> 0 ->
  includes (ob_stdout o) TASK_COMPLETE = true ->
  ls_stop st = Some StopSuccess /\
  (exists pre, ls_log st = app pre [o]) /\
  success resp = true.
Proof.
  intros w request resp st o H Hin Hturn Hexit Hmark.
  pose proof (execute_traced_cases _ _ _ _ H) as [Hfin ->].
  pose proof (buildResponse_final _ _ _ Hfin) as (Hs & _).
  destruct Hfin as (_ & _ & _ & _ & _ & Hst).
  assert (Hc : obs_completed o = true) by (apply checkCompletion_marker; exact Hmark).
  assert (Hnot : forall l, Forall (continued request) l -> ~ In o l).
  { intros l Hall Hl. rewrite Forall_forall in Hall.
    destruct (Hall o Hl) as [Hc' _]. congruence. }
  unfold stop_ok in Hst. destruct (ls_stop st) as [[n| | |]|] eqn:Estop.
  - destruct Hst as (_ & _ & _ & _ & Hall). exfalso. exact (Hnot _ Hall Hin).
  - destruct Hst as (pre & o' & Hl & Hall & Ht & _).
    rewrite Hl in Hin. apply in_snoc_cases in Hin as [Hin | <-].
    + exfalso. exact (Hnot _ Hall Hin).
    + exfalso. unfold maxI in Ht. lia.
  - destruct Hst as (pre & o' & Hl & Hall & _ & _ & Hsucc).
    rewrite Hl in Hin |- *. apply in_snoc_cases in Hin as [Hin | <-].
    + exfalso. exact (Hnot _ Hall Hin).
    + split; [reflexivity|]. split; [now exists pre|]. now rewrite Hs.
  - destruct Hst as (pre & o' & Hl & Hall & _ & _ & Hc' & _).
    rewrite Hl in Hin. apply in_snoc_cases in Hin as [Hin | <-].
    + exfalso. exact (Hnot _ Hall Hin).
    + congruence.
  - destruct Hst as (Hl & _). rewrite Hl in Hin. destruct Hin.
Qed.

Lemma marker_beats_early_failure_witness :
  exists resp st o,
    executeMissionTask_traced world_marker req_multi = (resp, Some st) /\
    ls_log st = [o] /\ ob_exit o = 1 /\ success resp = true.
Proof.
  do 3 eexists. split; [vm_compute; reflexivity|].
  match goal with |- ls_log ?st = _ /\ _ => set (st0 := st) end.
  split; [vm_compute; reflexivity|].
  match goal with |- ob_exit ?o = 1 /\ success ?r = true =>
    destruct (marker_beats_early_failure world_marker req_multi r st0 o)
      as (_ & _ & Hs) end.
  - vm_compute. reflexivity.
  - vm_compute. now left.
  - reflexivity.
  - discriminate.
  - reflexivity.
  - split; [reflexivity | exact Hs].
Defined.

(** ** Iteration bound and turn records *)

Lemma validate_max_iterations : forall body request,
  validateMissionRequest body = Valid request -> 1 <= maxIterations request <= 5.
Proof.
  intros body request H. unfold validateMissionRequest in H.
  destruct (not_object (Some body)); [discriminate|].
  destruct (nonempty_string (prop body "agent_id")); [|discriminate].
  destruct (nonempty_string (prop body "task_id")); [|discriminate].
  destruct (nonempty_string (prop body "task_subject")); [|discriminate].
  destruct (as_string (prop body "task_description")); [|discriminate].
  destruct (nonempty_string (prop body "soul_content")); [|discriminate].
  injection H as <-. unfold maxIterations; cbn [max_iterations].
  destruct (prop body "max_iterations") as [[| | q | | |]|]; try lia.
  unfold clamp_iterations. destruct (Z.max 1 (Z.min (Qfloor q) 5) =? 0) eqn:E; lia.
Qed.

Lemma validate_max_iterations_value : forall body request,
  validateMissionRequest body = Valid request ->
  max_iterations request = match prop body "max_iterations" with
                           | Some (JNum q) => Some (clamp_iterations q)
                           | _ => None
                           end.
Proof.
  intros body request H. unfold validateMissionRequest in H.
  destruct (not_object (Some body)); [discriminate|].
  destruct (nonempty_string (prop body "agent_id")); [|discriminate].
  destruct (nonempty_string (prop body "task_id")); [|discriminate].
  destruct (nonempty_string (prop body "task_subject")); [|discriminate].
  destruct (as_string (prop body "task_description")); [|discriminate].
  destruct (nonempty_string (prop body "soul_content")); [|discriminate].
  injection H as <-. reflexivity.
Qed.

(** C6 as stated fails: when the gateway cannot be started the [catch]
    result carries no [turn_outputs] (nor [turns_used] or [output]) even for
    [max_iterations = 3]. *)
Lemma turn_outputs_missing_counterexample :
  validateMissionRequest (JObj body_sample) = Valid req_multi /\
  1 < maxIterations req_multi /\
  turn_outputs (executeMissionTask world_down req_multi) = None /\
  turns_used (executeMissionTask world_down req_multi) = None.
Proof. repeat split; reflexivity. Qed.

(** C6 (amended): a validated request has an effective [max_iterations] in
    [1, 5]: a numeric input floored and clamped, any other or a missing
    input 1.  When the run completes without an exception, [turns_used] is
    the number [k <= max_iterations] of executed turns, the turn records
    carry indices [1..k] and each turn's stdout, [output] is the last
    executed turn's stdout ([""] if none ran), and [turn_outputs] is present
    exactly when [max_iterations > 1].  When readiness or a process call
    throws, the result is only [success = false], [error] and
    [duration_ms]. *)
Theorem iterations_and_turn_records : forall body request w resp ost,
  validateMissionRequest body = Valid request ->
  executeMissionTask_traced w request = (resp, ost) ->
  (1 <= maxIterations request <= 5) /\
  (forall q, prop body "max_iterations" = Some (JNum q) ->
     maxIterations request = Z.max 1 (Z.min (Qfloor q) 5)) /\
  ((forall q, prop body "max_iterations" <> Some (JNum q)) -> maxIterations request = 1) /\
  match ost with
  | Some st =>
      exists k,
        turns_used resp = Some (Z.of_nat k) /\
        (k <= Z.to_nat (maxIterations request))%nat /\
        length (turnOutputs st) = k /\
        map turn (turnOutputs st) = turn_indices k /\
        map output (turnOutputs st) = map ob_stdout (ls_log st) /\
        r_output resp = Some (last_stdout (ls_log st)) /\
        turn_outputs resp = (if 1 <? maxIterations request then Some (turnOutputs st) else None) /\
        (turn_outputs resp <> None <-> 1 < maxIterations request)
  | None =>
      success resp = false /\ turn_outputs resp = None /\ turns_used resp = None /\
      r_output resp = None /\ (exists msg, r_error resp = Some msg) /\
      r_duration_ms resp = Some (w_total w)
  end.
Proof.
  intros body request w resp ost Hv H.
  split; [exact (validate_max_iterations _ _ Hv)|].
  pose proof (validate_max_iterations_value _ _ Hv) as Hm.
  split; [|split].
  { intros q Hq. rewrite Hq in Hm. unfold maxIterations. rewrite Hm. unfold clamp_iterations.
    destruct (Z.max 1 (Z.min (Qfloor q) 5) =? 0) eqn:E0;
      [apply Z.eqb_eq in E0 | apply Z.eqb_neq in E0]; lia. }
  { intros Hq. unfold maxIterations. rewrite Hm.
    destruct (prop body "max_iterations") as [[| | q | | |]|]; try reflexivity.
    exfalso. exact (Hq q eq_refl). }
  pose proof (execute_traced_cases _ _ _ _ H) as Hc.
  destruct ost as [st|].
  - destruct Hc as [Hfin ->].
    pose proof (buildResponse_final _ _ _ Hfin) as (_ & Ho & Ht & Htos & _).
    destruct Hfin as (Houts & Hidx & Hle & _).
    exists (length (ls_log st)).
    split; [exact Ht|]. split; [exact Hle|].
    rewrite Houts, !map_map, length_map. cbn [turn output obs_record].
    split; [reflexivity|]. split; [exact Hidx|]. split; [reflexivity|].
    split; [exact Ho|].
    rewrite Htos. unfold multi, isMultiTurn.
    split; [reflexivity|].
    destruct (1 <? maxIterations request) eqn:E.
    + apply Z.ltb_lt in E. split; [intros _; exact E | discriminate].
    + apply Z.ltb_ge in E. split; [intros Hn; contradiction Hn; reflexivity | lia].
  - destruct Hc as [e ->]. repeat split. eexists. reflexivity.
Qed.

Lemma iterations_and_turn_records_witness :
  exists resp st,
    executeMissionTask_traced world_marker req_multi = (resp, Some st) /\
    length (turnOutputs st) = 1%nat /\
    1 <= maxIterations req_multi <= 5 /\ turns_used resp = Some 1.
Proof.
  do 2 eexists. split; [vm_compute; reflexivity|].
  match goal with |- length (turnOutputs ?st) = _ /\ _ /\ turns_used ?r = _ =>
    destruct (iterations_and_turn_records (JObj body_sample) req_multi world_marker r
                (Some st) eq_refl)
      as (Hb & _ & _ & k & Ht & _ & Hk & _) end.
  - vm_compute. reflexivity.
  - vm_compute in Hk. subst k. split; [reflexivity|]. split; [exact Hb | exact Ht].
Defined.

(** * Further properties of mission.ts *)

(** ** Substring search *)

Lemma prefix_iff : forall p s, String.prefix p s = true <-> exists r, s = p ++ r.
Proof.
  induction p as [|a p IH]; intros s.
  - split; [intros _; now exists s | intros _; destruct s; reflexivity].
  - destruct s as [|b s]; simpl.
    + split; [discriminate | intros [r Hr]; discriminate Hr].
    + destruct (ascii_dec a b) as [<-|Hne].
      * rewrite IH. split; intros [r Hr]; exists r; [now rewrite Hr | now injection Hr].
      * split; [discriminate | intros [r Hr]; injection Hr as Hr _; congruence].
Qed.

Lemma includes_iff : forall s sub,
  includes s sub = true <-> exists a b, s = a ++ sub ++ b.
Proof.
  induction s as [|c s IH]; intros sub.
  - simpl. destruct sub as [|d sub]; simpl.
    + split; [intros _; now exists "", "" | reflexivity].
    + split; [discriminate|]. intros (a & b & H). destruct a; discriminate H.
  - cbn [includes]. destruct (String.prefix sub (String c s)) eqn:E.
    + split; [intros _ | reflexivity].
      apply prefix_iff in E as [r Hr]. now exists "", r.
    + rewrite IH. split.
      * intros (a & b & H). exists (String c a), b. now rewrite H.
      * intros (a & b & H). destruct a as [|d a].
        -- exfalso. assert (Hp : String.prefix sub (String c s) = true)
             by (apply prefix_iff; now exists b). congruence.
        -- injection H as -> H. now exists a, b.
Qed.

Lemma includes_app_l : forall a s sub, includes s sub = true -> includes (a ++ s) sub = true.
Proof.
  intros a s sub H. apply includes_iff in H as (x & y & ->). apply includes_iff.
  exists (a ++ x), y. now rewrite str_app_assoc.
Qed.

Lemma includes_app_r : forall s t sub, includes s sub = true -> includes (s ++ t) sub = true.
Proof.
  intros s t sub H. apply includes_iff in H as (x & y & ->). apply includes_iff.
  exists x, (y ++ t). now rewrite !str_app_assoc.
Qed.

Lemma includes_trans : forall s t u,
  includes s t = true -> includes t u = true -> includes s u = true.
Proof.
  intros s t u H1 H2. apply includes_iff in H1 as (a & b & ->).
  apply includes_iff in H2 as (c & d & ->). apply includes_iff.
  exists (a ++ c), (d ++ b). now rewrite !str_app_assoc.
Qed.

Lemma includes_self : forall s, includes s s = true.
Proof. intros s. apply includes_iff. exists "", "". simpl. now rewrite str_app_nil_r. Qed.

Lemma toLowerCase_app : forall a b, toLowerCase (a ++ b) = toLowerCase a ++ toLowerCase b.
Proof. induction a as [|c a IH]; intros b; simpl; [reflexivity | now rewrite IH]. Qed.

Lemma includes_lower : forall s v,
  includes s v = true -> includes (toLowerCase s) (toLowerCase v) = true.
Proof.
  intros s v H. apply includes_iff in H as (a & b & ->). apply includes_iff.
  exists (toLowerCase a), (toLowerCase b). now rewrite !toLowerCase_app.
Qed.

Lemma existsb_false_Forall : forall {A} (f : A -> bool) l,
  existsb f l = false <-> Forall (fun x => f x = false) l.
Proof.
  induction l as [|x l IH]; simpl.
  - split; auto.
  - rewrite orb_false_iff, IH. split.
    + intros [H1 H2]. now constructor.
    + intros H. inversion H; subst. now split.
Qed.

(** ** Completion classifier: the complete rule set *)

(** X1: [checkCompletion] is [true] exactly when the output carries
    [[TASK_COMPLETE]], or the exit code is 0, the output carries no
    [[NEEDS_REFINEMENT]], is longer than 100 characters and its lower-cased
    text contains none of the failure indicators. *)
Theorem checkCompletion_iff : forall (out : string) (exitCode : Z),
  checkCompletion out exitCode = true <->
  includes out TASK_COMPLETE = true \/
  (exitCode = 0 /\ includes out NEEDS_REFINEMENT = false /\
   (100 < String.length out)%nat /\
   Forall (fun ind => includes (toLowerCase out) ind = false) ERROR_INDICATORS).
Proof.
  intros out e. unfold checkCompletion.
  destruct (includes out TASK_COMPLETE) eqn:Em.
  { split; [now left | reflexivity]. }
  split; [intros H; right | intros [H | (He & Hn & Hl & Hall)]; [discriminate H|]].
  - destruct (negb (e =? 0)) eqn:Ee; [discriminate H|].
    apply negb_false_iff, Z.eqb_eq in Ee.
    destruct (includes out NEEDS_REFINEMENT) eqn:En; [discriminate H|].
    destruct (Nat.ltb 100 (String.length out)) eqn:El; [|discriminate H].
    apply Nat.ltb_lt in El. cbv zeta in H.
    destruct (existsb _ ERROR_INDICATORS) eqn:Ex; [discriminate H|].
    apply existsb_false_Forall in Ex. repeat split; assumption.
  - subst e. cbn [Z.eqb negb]. rewrite Hn.
    apply Nat.ltb_lt in Hl. rewrite Hl. cbv zeta.
    replace (existsb _ ERROR_INDICATORS) with false; [reflexivity|].
    symmetry. apply existsb_false_Forall. exact Hall.
Qed.

(** X2: the failure indicators are matched case-insensitively: an output
    without [[TASK_COMPLETE]] that contains any spelling of an indicator
    (for instance ["FAILED"] or ["Error:"]) is never classified complete. *)
Theorem checkCompletion_indicator_any_case : forall (out : string) (exitCode : Z) (v ind : string),
  includes out TASK_COMPLETE = false ->
  In ind ERROR_INDICATORS -> toLowerCase v = ind -> includes out v = true ->
  checkCompletion out exitCode = false.
Proof.
  intros out e v ind Hm Hin Hv Hinc. unfold checkCompletion. rewrite Hm.
  destruct (negb (e =? 0)); [reflexivity|].
  destruct (includes out NEEDS_REFINEMENT); [reflexivity|].
  destruct (Nat.ltb 100 (String.length out)); [|reflexivity]. cbv zeta.
  replace (existsb _ ERROR_INDICATORS) with true; [reflexivity|].
  symmetry. apply existsb_exists. exists ind. split; [exact Hin|].
  rewrite <- Hv. now apply includes_lower.
Qed.

Lemma checkCompletion_indicator_any_case_witness :
  checkCompletion
    "Build FAILED while linking the final binary for the release target; see the attached build log for all of the details" 0
  = false.
Proof.
  apply (checkCompletion_indicator_any_case _ 0 "FAILED" "failed");
    [reflexivity | right; left; reflexivity | reflexivity | reflexivity].
Defined.

(** ** Time-budget allocator: bounds of a granted timeout *)

(** X3: in multi-turn mode every timeout the allocator grants lies between
    60000 and 180000 ms and never runs past the 270000 ms total budget. *)
Theorem turnTimeout_bounds : forall (elapsed tmo : Z),
  turnTimeout true elapsed = Some tmo ->
  60000 <= tmo <= 180000 /\ elapsed + tmo <= 270000.
Proof.
  intros elapsed tmo H. unfold turnTimeout in H. cbn [negb] in H.
  destruct (MULTI_TURN_TOTAL_BUDGET_MS - elapsed <? MULTI_TURN_MIN_REMAINING_MS) eqn:E;
    [discriminate H|].
  apply Z.ltb_ge in E.
  pose proof (Z.min_spec (MULTI_TURN_TOTAL_BUDGET_MS - elapsed) MULTI_TURN_PER_TURN_CAP_MS) as Hs.
  revert H Hs.
  generalize (Z.min (MULTI_TURN_TOTAL_BUDGET_MS - elapsed) MULTI_TURN_PER_TURN_CAP_MS) as t.
  intros t H Hs. injection H as H. subst t.
  unfold MULTI_TURN_TOTAL_BUDGET_MS, MULTI_TURN_MIN_REMAINING_MS, MULTI_TURN_PER_TURN_CAP_MS in *.
  lia.
Qed.

Lemma turnTimeout_bounds_witness :
  60000 <= 170000 <= 180000 /\ 100000 + 170000 <= 270000.
Proof. apply (turnTimeout_bounds 100000 170000). reflexivity. Defined.

(** ** Credential environment: base URLs and gateway ids *)

(** X5: for [anthropic], [openai] and [moonshot] the base-URL variable is
    set to [base_url] exactly when it is a non-empty string, and left unset
    otherwise. *)
Theorem optional_base_url_vars : forall (key : string) (base : option string),
  env_get "ANTHROPIC_BASE_URL" (buildCredentialEnvVars (mkApiCredentials anthropic key base)) =
    given_url base /\
  env_get "OPENAI_BASE_URL" (buildCredentialEnvVars (mkApiCredentials openai key base)) =
    given_url base /\
  env_get "MOONSHOT_BASE_URL" (buildCredentialEnvVars (mkApiCredentials moonshot key base)) =
    given_url base.
Proof. intros key [[|c u]|]; repeat split. Qed.

(** X6: [openrouter] and [minimax] always set [OPENAI_BASE_URL]: to
    [base_url] when it is a non-empty string, otherwise to the provider's
    default endpoint; [OPENAI_API_KEY] is the api key. *)
Theorem openai_compatible_defaults : forall (key : string) (base : option string),
  env_get "OPENAI_API_KEY" (buildCredentialEnvVars (mkApiCredentials openrouter key base)) = Some key /\
  env_get "OPENAI_BASE_URL" (buildCredentialEnvVars (mkApiCredentials openrouter key base)) =
    Some (match given_url base with Some u => u | None => "https://openrouter.ai/api/v1" end) /\
  env_get "OPENAI_API_KEY" (buildCredentialEnvVars (mkApiCredentials minimax key base)) = Some key /\
  env_get "OPENAI_BASE_URL" (buildCredentialEnvVars (mkApiCredentials minimax key base)) =
    Some (match given_url base with Some u => u | None => "https://api.minimaxi.chat/v1" end).
Proof. intros key [[|c u]|]; repeat split. Qed.
Lemma match_v1_ids_skip : forall c s,
  String.prefix "/v1/" (String c s) = false -> match_v1_ids (String c s) = match_v1_ids s.
Proof. intros c s H. cbn [match_v1_ids]. rewrite H. reflexivity. Qed.

Lemma span_nonslash_slash : forall a r, has_char "/" a = false ->
  span_nonslash (a ++ String "/" r) = (a, String "/" r).
Proof.
  induction a as [|c a IH]; intros r H; [reflexivity|].
  cbn [has_char] in H. cbn [String.append span_nonslash].
  destruct (Ascii.eqb c "/"%char); [discriminate H|]. now rewrite IH.
Qed.

Lemma span_nonslash_all : forall g, has_char "/" g = false -> span_nonslash g = (g, "").
Proof.
  induction g as [|c g IH]; intros H; [reflexivity|].
  cbn [has_char] in H. cbn [span_nonslash].
  destruct (Ascii.eqb c "/"%char); [discriminate H|]. now rewrite IH.
Qed.

Lemma substring_after : forall p x,
  substring (String.length p) (String.length (p ++ x) - String.length p) (p ++ x) = x.
Proof.
  induction p as [|c p IH]; intros x.
  - cbn [String.length String.append]. rewrite Nat.sub_0_r. apply substring_all.
  - cbn [String.length String.append substring]. apply IH.
Qed.

Lemma match_v1_here : forall a g rest,
  a <> "" -> g <> "" -> has_char "/" a = false -> has_char "/" g = false ->
  (rest = "" \/ exists r, rest = String "/" r) ->
  match_v1_ids ("/v1/" ++ a ++ "/" ++ g ++ rest) = Some (a, g).
Proof.
  intros a g rest Ha Hg Hsa Hsg Hr.
  assert (Hp : String.prefix "/v1/" ("/v1/" ++ a ++ "/" ++ g ++ rest) = true)
    by (apply prefix_iff; eexists; reflexivity).
  assert (Hs : substring 4 (String.length ("/v1/" ++ a ++ "/" ++ g ++ rest) - 4)
                 ("/v1/" ++ a ++ "/" ++ g ++ rest) = a ++ "/" ++ g ++ rest)
    by apply (substring_after "/v1/").
  assert (Hrest : span_nonslash (g ++ rest) = (g, rest)).
  { destruct Hr as [-> | [r ->]].
    - rewrite str_app_nil_r. now apply span_nonslash_all.
    - now apply span_nonslash_slash. }
  destruct a as [|ca a]; [contradiction|]. destruct g as [|cg g]; [contradiction|].
  revert Hp Hs. generalize ("/v1/" ++ String ca a ++ "/" ++ String cg g ++ rest) as s.
  intros s Hp Hs. destruct s as [|c0 s0]; [discriminate Hp|].
  cbn [match_v1_ids]. rewrite Hp, Hs.
  change ("/" ++ (String cg g ++ rest)) with (String "/" (String cg g ++ rest)).
  rewrite (span_nonslash_slash (String ca a)) by exact Hsa.
  rewrite Hrest. reflexivity.
Qed.

Lemma match_v1_includes : forall s m, match_v1_ids s = Some m -> includes s "/v1/" = true.
Proof.
  induction s as [|c s IH]; intros m H; [discriminate H|].
  cbn [includes]. destruct (String.prefix "/v1/" (String c s)) eqn:P; [reflexivity|].
  rewrite match_v1_ids_skip in H by exact P. exact (IH m H).
Qed.

(** X7: a [cloudflare-ai-gateway] base URL of the documented form
    [https://gateway.ai.cloudflare.com/v1/{account_id}/{gateway_id}] (ids
    non-empty and slash-free, optionally followed by a further path) sets
    the account id and the gateway id variables to the two ids, beside the
    api key. *)
Theorem cloudflare_gateway_ids : forall (key a g rest : string),
  a <> "" -> g <> "" -> has_char "/" a = false -> has_char "/" g = false ->
  (rest = "" \/ exists r, rest = String "/" r) ->
  let env := buildCredentialEnvVars (mkApiCredentials cloudflare_ai_gateway key
               (Some (CF_GATEWAY_PREFIX ++ a ++ "/" ++ g ++ rest))) in
  env_get "CLOUDFLARE_AI_GATEWAY_API_KEY" env = Some key /\
  env_get "CF_AI_GATEWAY_ACCOUNT_ID" env = Some a /\
  env_get "CF_AI_GATEWAY_GATEWAY_ID" env = Some g.
Proof.
  intros key a g rest Ha Hg Hsa Hsg Hr env.
  assert (Hm : match_v1_ids (CF_GATEWAY_PREFIX ++ a ++ "/" ++ g ++ rest) = Some (a, g)).
  { unfold CF_GATEWAY_PREFIX. cbn [String.append].
    repeat (rewrite match_v1_ids_skip by reflexivity).
    exact (match_v1_here a g rest Ha Hg Hsa Hsg Hr). }
  assert (Ht : opt_truthy (Some (CF_GATEWAY_PREFIX ++ a ++ "/" ++ g ++ rest)) =
               Some (CF_GATEWAY_PREFIX ++ a ++ "/" ++ g ++ rest)) by reflexivity.
  subst env. unfold buildCredentialEnvVars. cbn [provider base_url api_key].
  rewrite Ht, Hm. repeat split.
Qed.

Lemma cloudflare_gateway_ids_witness :
  env_get "CF_AI_GATEWAY_GATEWAY_ID"
    (buildCredentialEnvVars (mkApiCredentials cloudflare_ai_gateway "k"
       (Some (CF_GATEWAY_PREFIX ++ "acct42" ++ "/" ++ "gw-main" ++ "/openai")))) = Some "gw-main".
Proof.
  apply (cloudflare_gateway_ids "k" "acct42" "gw-main" "/openai");
    [discriminate | discriminate | reflexivity | reflexivity | right; now exists "openai"].
Defined.

(** X8: a [cloudflare-ai-gateway] credential whose base URL is absent or
    contains no [/v1/] sets only the api key variable: no account or gateway
    id is guessed. *)
Theorem cloudflare_without_ids : forall (key : string) (base : option string),
  (forall u, base = Some u -> includes u "/v1/" = false) ->
  buildCredentialEnvVars (mkApiCredentials cloudflare_ai_gateway key base) =
    [("CLOUDFLARE_AI_GATEWAY_API_KEY", key)].
Proof.
  intros key base H. unfold buildCredentialEnvVars. cbn [provider base_url api_key].
  destruct base as [u|]; [|reflexivity]. cbn [opt_truthy].
  destruct (truthy u); [|reflexivity].
  destruct (match_v1_ids u) as [m|] eqn:E; [|reflexivity].
  apply match_v1_includes in E. rewrite (H u eq_refl) in E. discriminate E.
Qed.

Lemma cloudflare_without_ids_witness :
  buildCredentialEnvVars (mkApiCredentials cloudflare_ai_gateway "k"
    (Some "https://gateway.example.com/acct/gw")) = [("CLOUDFLARE_AI_GATEWAY_API_KEY", "k")].
Proof.
  apply cloudflare_without_ids. intros u H. injection H as <-. reflexivity.
Defined.
(** ** Request validation: accepted fields and rejected bodies *)

Lemma nonempty_string_inv : forall v s, nonempty_string v = Some s -> v = Some (JStr s) /\ s <> "".
Proof.
  intros v s H. unfold nonempty_string, as_string in H.
  destruct v as [[| | | t | |]|]; try discriminate H.
  destruct t as [|c t]; [discriminate H|]. injection H as <-. split; [reflexivity | discriminate].
Qed.

Lemma as_string_inv : forall v s, as_string v = Some s -> v = Some (JStr s).
Proof. intros [[| | | t | |]|] s H; try discriminate H. now injection H as ->. Qed.

Lemma validate_fields : forall body r, validateMissionRequest body = Valid r ->
  nonempty_string (prop body "agent_id") = Some (agent_id r) /\
  nonempty_string (prop body "task_id") = Some (task_id r) /\
  nonempty_string (prop body "task_subject") = Some (task_subject r) /\
  as_string (prop body "task_description") = Some (task_description r) /\
  nonempty_string (prop body "soul_content") = Some (soul_content r) /\
  model_override r = as_string (prop body "model_override") /\
  max_iterations r = match prop body "max_iterations" with
                     | Some (JNum q) => Some (clamp_iterations q)
                     | _ => None
                     end.
Proof.
  intros body r H. unfold validateMissionRequest in H.
  destruct (not_object (Some body)); [discriminate|].
  destruct (nonempty_string (prop body "agent_id")); [|discriminate].
  destruct (nonempty_string (prop body "task_id")); [|discriminate].
  destruct (nonempty_string (prop body "task_subject")); [|discriminate].
  destruct (as_string (prop body "task_description")); [|discriminate].
  destruct (nonempty_string (prop body "soul_content")); [|discriminate].
  injection H as <-. repeat split.
Qed.

(** X9: a request that validates carries the body's [agent_id],
    [task_id], [task_subject] and [soul_content], each a non-empty string,
    and its [task_description], a string that may be empty. *)
Theorem validated_required_fields : forall (body : JSON) (r : MissionExecuteRequest),
  validateMissionRequest body = Valid r ->
  prop body "agent_id" = Some (JStr (agent_id r)) /\ agent_id r <> "" /\
  prop body "task_id" = Some (JStr (task_id r)) /\ task_id r <> "" /\
  prop body "task_subject" = Some (JStr (task_subject r)) /\ task_subject r <> "" /\
  prop body "task_description" = Some (JStr (task_description r)) /\
  prop body "soul_content" = Some (JStr (soul_content r)) /\ soul_content r <> "".
Proof.
  intros body r H.
  destruct (validate_fields _ _ H) as (H1 & H2 & H3 & H4 & H5 & _).
  apply nonempty_string_inv in H1 as [-> ?], H2 as [-> ?], H3 as [-> ?], H5 as [-> ?].
  apply as_string_inv in H4 as ->. repeat split; assumption.
Qed.

Lemma validated_required_fields_witness :
  prop (JObj body_sample) "task_description" = Some (JStr "") /\ task_description req_multi = "".
Proof.
  destruct (validated_required_fields (JObj body_sample) req_multi) as (_ & _ & _ & _ & _ & _ & H & _).
  - reflexivity.
  - split; [exact H | reflexivity].
Defined.

(** X10: [null], booleans, numbers and strings are rejected as not being an
    object; an array passes that check ([typeof [] === 'object']) and is
    rejected for its missing [agent_id]; an object without a non-empty
    string [agent_id] gets the [agent_id] message whatever else is wrong. *)
Theorem validate_rejections :
  (forall body : JSON,
     match body with
     | JObj _ => True
     | JArr _ => validateMissionRequest body = Invalid "agent_id is required and must be a string"
     | _ => validateMissionRequest body = Invalid "Request body must be a JSON object"
     end) /\
  (forall fs, nonempty_string (prop (JObj fs) "agent_id") = None ->
     validateMissionRequest (JObj fs) = Invalid "agent_id is required and must be a string").
Proof.
  split.
  - intros [| | | | |]; try exact I; reflexivity.
  - intros fs H. unfold validateMissionRequest. cbn [not_object]. now rewrite H.
Qed.

(** X11: a numeric [max_iterations] is floored and clamped into [1, 5]: a
    value whose floor lies in [1, 5] is kept as that floor, smaller values
    (0, negatives, fractions below 1) give 1, larger ones give 5; a
    non-numeric value (for instance the string ["3"]) is dropped, which
    leaves the request single-shot. *)
Theorem max_iterations_clamp : forall (body : JSON) (r : MissionExecuteRequest),
  validateMissionRequest body = Valid r ->
  (forall q, prop body "max_iterations" = Some (JNum q) ->
     maxIterations r = (if Qfloor q <? 1 then 1 else if 5 <? Qfloor q then 5 else Qfloor q)) /\
  ((forall q, prop body "max_iterations" <> Some (JNum q)) ->
     max_iterations r = None /\ maxIterations r = 1 /\ isMultiTurn r = false).
Proof.
  intros body r H. destruct (validate_fields _ _ H) as (_ & _ & _ & _ & _ & _ & Hm).
  split.
  - intros q Hq. rewrite Hq in Hm. unfold maxIterations. rewrite Hm. unfold clamp_iterations.
    destruct (Qfloor q <? 1) eqn:E1; [apply Z.ltb_lt in E1 | apply Z.ltb_ge in E1];
      [|destruct (5 <? Qfloor q) eqn:E2; [apply Z.ltb_lt in E2 | apply Z.ltb_ge in E2]];
      (destruct (Z.max 1 (Z.min (Qfloor q) 5) =? 0) eqn:E0;
       [apply Z.eqb_eq in E0 | apply Z.eqb_neq in E0]); lia.
  - intros Hq. assert (Hn : max_iterations r = None).
    { rewrite Hm. destruct (prop body "max_iterations") as [[| | q | | |]|]; try reflexivity.
      exfalso. exact (Hq q eq_refl). }
    unfold isMultiTurn, maxIterations. rewrite Hn. repeat split.
Qed.

Lemma max_iterations_clamp_witness :
  maxIterations req_multi = 3 /\
  validateMissionRequest (JObj [("agent_id", JStr "a"); ("task_id", JStr "t");
    ("task_subject", JStr "s"); ("task_description", JStr ""); ("soul_content", JStr "x");
    ("max_iterations", JStr "3")]) =
  Valid (mkRequest "a" "t" "s" "" "x" None None None None None None None None None) /\
  isMultiTurn (mkRequest "a" "t" "s" "" "x" None None None None None None None None None) = false.
Proof.
  split; [|split; [reflexivity|]].
  - rewrite (proj1 (max_iterations_clamp (JObj body_sample) req_multi eq_refl) (7 # 2) eq_refl).
    reflexivity.
  - apply (proj2 (max_iterations_clamp (JObj [("agent_id", JStr "a"); ("task_id", JStr "t");
      ("task_subject", JStr "s"); ("task_description", JStr ""); ("soul_content", JStr "x");
      ("max_iterations", JStr "3")]) _ eq_refl)).
    intros q H. discriminate H.
Defined.

(** X12: [executeMissionTask] called with an unvalidated request whose
    [max_iterations] is a negative integer runs no turn: once the gateway is up it
    reports failure with an empty output, zero turns, no turn records and
    the error "No output produced". *)
Theorem negative_iterations_no_turn : forall (w : World) (r : MissionExecuteRequest) (n : Z),
  w_gateway w = None -> max_iterations r = Some n -> n < 0 ->
  executeMissionTask w r =
    {| success := false; r_output := Some ""; r_error := Some "No output produced";
       r_duration_ms := Some (w_total w); turns_used := Some 0; turn_outputs := None |}.
Proof.
  intros w r n Hg Hm Hn.
  assert (Hmax : maxI r = n).
  { unfold maxI, maxIterations. rewrite Hm.
    destruct (n =? 0) eqn:E; [apply Z.eqb_eq in E; lia | reflexivity]. }
  assert (Hmu : multi r = false) by (unfold multi, isMultiTurn; fold (maxI r); rewrite Hmax; apply Z.ltb_ge; lia).
  unfold executeMissionTask, executeMissionTask_traced. rewrite Hg, Hmax.
  replace (Z.to_nat n) with 0%nat by lia. cbn [run_loop fst]. rewrite Hmu. reflexivity.
Qed.

Lemma negative_iterations_no_turn_witness :
  turns_used (executeMissionTask world_budget req_negative) = Some 0.
Proof.
  rewrite (negative_iterations_no_turn world_budget req_negative (-2) eq_refl eq_refl
             ltac:(lia)).
  reflexivity.
Defined.

Lemma validate_rejections_witness :
  validateMissionRequest (JObj [("agent_id", JStr ""); ("task_id", JNum 3)]) =
    Invalid "agent_id is required and must be a string".
Proof. apply (proj2 validate_rejections). reflexivity. Defined.
(** ** Prompts and command *)

Lemma or_str_empty : forall s, or_str s "" = s.
Proof. intros [|c s]; reflexivity. Qed.

Lemma planning_keywords_lower : Forall (fun kw => toLowerCase kw = kw) PLANNING_KEYWORDS.
Proof. repeat constructor. Qed.

Lemma detect_of_keyword : forall r kw, In kw PLANNING_KEYWORDS ->
  includes (toLowerCase (task_subject r ++ " " ++ task_description r)) kw = true ->
  detectActionBlockTask r = true.
Proof.
  intros r kw Hin H. unfold detectActionBlockTask. rewrite !or_str_empty.
  destruct (startsWith (task_subject r) "[KICKOFF]"); [reflexivity|]. cbv zeta.
  replace (existsb _ _) with true; [reflexivity|].
  symmetry. apply existsb_exists. exists kw. split; [exact Hin | exact H].
Qed.

(** X13: a task gets the action-block section when its subject starts with
    [[KICKOFF]], or when subject or description contains a planning keyword
    in any letter case; since the keywords are searched in
    [subject + ' ' + description], a keyword whose first word ends the
    subject and whose second word starts the description also counts. *)
Theorem detect_action_block_triggers : forall (r : MissionExecuteRequest),
  (startsWith (task_subject r) "[KICKOFF]" = true -> detectActionBlockTask r = true) /\
  (forall kw v, In kw PLANNING_KEYWORDS -> toLowerCase v = kw ->
     includes (task_subject r) v = true \/ includes (task_description r) v = true ->
     detectActionBlockTask r = true) /\
  (forall k1 k2 s1 d1, In (k1 ++ " " ++ k2) PLANNING_KEYWORDS ->
     task_subject r = s1 ++ k1 -> task_description r = k2 ++ d1 ->
     detectActionBlockTask r = true).
Proof.
  intros r. split; [|split].
  - intros H. unfold detectActionBlockTask. rewrite !or_str_empty, H. reflexivity.
  - intros kw v Hin Hv [Hs | Hd]; apply (detect_of_keyword r kw Hin); rewrite toLowerCase_app.
    + apply includes_app_r. rewrite <- Hv. now apply includes_lower.
    + apply includes_app_l. rewrite toLowerCase_app. apply includes_app_l.
      rewrite <- Hv. now apply includes_lower.
  - intros k1 k2 s1 d1 Hin Hs Hd. apply (detect_of_keyword r _ Hin).
    rewrite Hs, Hd. pose proof planning_keywords_lower as Hall. rewrite Forall_forall in Hall.
    pose proof (Hall _ Hin) as Hl.
    apply includes_iff. exists (toLowerCase s1), (toLowerCase d1).
    rewrite <- Hl. rewrite !toLowerCase_app, !str_app_assoc. reflexivity.
Qed.

Lemma detect_action_block_triggers_witness :
  detectActionBlockTask (mkRequest "backend" "t1" "Please Break Down" "the work" "soul"
    None None None None None None None None None) = true /\
  detectActionBlockTask (mkRequest "backend" "t1" "Plan: break" "down the work" "soul"
    None None None None None None None None None) = true.
Proof.
  split.
  - apply (proj1 (proj2 (detect_action_block_triggers (mkRequest "backend" "t1"
      "Please Break Down" "the work" "soul" None None None None None None None None None)))
      "break down" "Break Down"); [simpl; tauto | reflexivity | left; reflexivity].
  - apply (proj2 (proj2 (detect_action_block_triggers (mkRequest "backend" "t1"
      "Plan: break" "down the work" "soul" None None None None None None None None None)))
      "break" "down" "Plan: " " the work"); [simpl; tauto | reflexivity | reflexivity].
Defined.
Lemma join_cons : forall sep x l,
  join sep (x :: l) = x ++ match l with [] => "" | _ => sep ++ join sep l end.
Proof. intros sep x [|y l]; simpl; [now rewrite str_app_nil_r | reflexivity]. Qed.

Lemma join_snoc : forall sep l x, l <> [] -> join sep (app l [x]) = join sep l ++ sep ++ x.
Proof.
  intros sep l x. induction l as [|y l IH]; intros Hl; [contradiction|].
  destruct l as [|z l]; [reflexivity|].
  specialize (IH ltac:(discriminate)). simpl in IH |- *. rewrite IH.
  now rewrite !str_app_assoc.
Qed.

Lemma includes_join : forall sep l x, In x l -> includes (join sep l) x = true.
Proof.
  intros sep l x. induction l as [|y l IH]; intros Hin; [destruct Hin|].
  rewrite join_cons. destruct Hin as [<- | Hin].
  - apply includes_app_r, includes_self.
  - destruct l as [|z l]; [destruct Hin|]. apply includes_app_l, includes_app_l. now apply IH.
Qed.

Lemma concat_sections : forall (x t i : string) (o1 o2 o3 o4 o5 o6 a : list string),
  concat [[x]; o1; o2; o3; o4; o5; o6; [t]; a; [i]] =
  app (x :: app o1 (app o2 (app o3 (app o4 (app o5 (app o6 (t :: a))))))) [i].
Proof. intros. simpl. rewrite <- !app_assoc. reflexivity. Qed.

(** X14: the first-turn prompt opens with the agent's soul under
    "# Agent Context" and closes with the instructions section (the
    multi-turn one asking for [[TASK_COMPLETE]] or [[NEEDS_REFINEMENT]],
    the single-shot one otherwise); it always names the task id, and a task
    with an empty description reads "No additional description provided.". *)
Theorem firstTurnPrompt_shape : forall (r : MissionExecuteRequest) (m : bool),
  (exists mid, buildFirstTurnPrompt r m =
     "# Agent Context

" ++ soul_content r ++ mid ++ SECTION_SEP ++
     (if m then MULTI_TURN_INSTRUCTIONS else SINGLE_SHOT_INSTRUCTIONS)) /\
  includes (buildFirstTurnPrompt r m) ("**Task ID:** " ++ task_id r) = true /\
  (task_description r = "" ->
   includes (buildFirstTurnPrompt r m) "No additional description provided." = true) /\
  (m = true -> includes (buildFirstTurnPrompt r m) TASK_COMPLETE = true /\
               includes (buildFirstTurnPrompt r m) NEEDS_REFINEMENT = true).
Proof.
  intros r m.
  assert (Hshape : exists mid, buildFirstTurnPrompt r m =
     "# Agent Context

" ++ soul_content r ++ mid ++ SECTION_SEP ++
     (if m then MULTI_TURN_INSTRUCTIONS else SINGLE_SHOT_INSTRUCTIONS)).
  { unfold buildFirstTurnPrompt. rewrite concat_sections, join_snoc by discriminate.
    rewrite join_cons, !str_app_assoc. eexists. reflexivity. }
  assert (Htask : forall s, includes ("# Current Task

**Task ID:** " ++ task_id r ++ "
**Subject:** " ++ task_subject r ++ "

## Description

" ++ or_str (task_description r) "No additional description provided.") s = true ->
    includes (buildFirstTurnPrompt r m) s = true).
  { intros s Hs. eapply includes_trans; [|exact Hs].
    unfold buildFirstTurnPrompt. apply includes_join. apply in_concat.
    eexists. split; [do 7 right; left; reflexivity | left; reflexivity]. }
  split; [exact Hshape|]. split; [|split].
  - apply Htask. apply includes_iff. eexists "# Current Task

", _. reflexivity.
  - intros Hd. apply Htask. rewrite Hd. apply includes_iff.
    exists ("# Current Task

**Task ID:** " ++ task_id r ++ "
**Subject:** " ++ task_subject r ++ "

## Description

"), "".
    rewrite str_app_nil_r, !str_app_assoc. reflexivity.
  - intros ->. destruct Hshape as [mid ->].
    split; do 3 apply includes_app_l; apply includes_app_l; reflexivity.
Qed.

Lemma firstTurnPrompt_shape_witness :
  includes (buildFirstTurnPrompt req_multi true) TASK_COMPLETE = true /\
  includes (buildFirstTurnPrompt req_multi true) "No additional description provided." = true.
Proof.
  destruct (firstTurnPrompt_shape req_multi true) as (_ & _ & Hd & Hm).
  split; [exact (proj1 (Hm eq_refl)) | exact (Hd eq_refl)].
Defined.

Lemma truncatePrevious_length : forall p,
  String.length (truncatePrevious p) =
    if Nat.ltb 8000 (String.length p) then 8018%nat else String.length p.
Proof.
  intros p. unfold truncatePrevious, maxPreviousLength.
  destruct (Nat.ltb 8000 (String.length p)) eqn:E; [|reflexivity].
  apply Nat.ltb_lt in E. rewrite str_app_length. unfold slice_last.
  rewrite substring_length by lia. reflexivity.
Qed.

(** X15: the length of a follow-up prompt is the fixed head and tail plus
    the previous output's length when that is at most 8000 characters, and
    plus exactly 8018 (notice and last 8000 characters) otherwise, so a
    follow-up prompt never grows with a long previous output. *)
Theorem followUp_prompt_length : forall (r : MissionExecuteRequest) (turn : Z)
    (previousOutput : string) (isFinalTurn : bool),
  String.length (buildFollowUpTurnPrompt r turn previousOutput isFinalTurn) =
    (String.length (followUpHead r turn) +
     (if Nat.ltb 8000 (String.length previousOutput) then 8018 else String.length previousOutput) +
     String.length (followUpTail r isFinalTurn))%nat.
Proof.
  intros r turn p fin.
  assert (E : buildFollowUpTurnPrompt r turn p fin =
              followUpHead r turn ++ truncatePrevious p ++ followUpTail r fin).
  { unfold buildFollowUpTurnPrompt, followUpHead, followUpTail. cbn [join].
    repeat rewrite str_app_assoc. reflexivity. }
  rewrite E, !str_app_length, truncatePrevious_length. lia.
Qed.

Lemma lex_quoted_plain : forall m w acc rest, has_char "'" m = false ->
  Shell.lex (m ++ rest) Shell.Quoted (Some w) acc = Shell.lex rest Shell.Quoted (Some (w ++ m)) acc.
Proof.
  induction m as [|c m IH]; intros w acc rest H.
  - simpl. now rewrite str_app_nil_r.
  - cbn [has_char] in H. destruct (Ascii.eqb c "'"%char) eqn:E; [discriminate H|].
    cbn [String.append Shell.lex]. rewrite E. cbn [Shell.word].
    rewrite IH by exact H. now rewrite str_app_assoc.
Qed.

(** X16: a non-empty [model_override] without a single quote survives the
    shell: the command splits into the fixed words, [--model], the override
    and the prompt. *)
Theorem command_words_safe_override : forall (m prompt : string),
  m <> "" -> has_char "'" m = false ->
  Shell.words (buildCommand (Some m) prompt) = Some (app COMMAND_WORDS ["--model"; m; prompt]).
Proof.
  intros m prompt Hm Hq.
  assert (Ht : opt_truthy (Some m) = Some m) by (destruct m; [contradiction | reflexivity]).
  unfold buildCommand, Shell.words. rewrite Ht.
  rewrite !str_app_assoc. cbn -[escapePrompt].
  rewrite lex_quoted_plain by exact Hq.
  cbn -[escapePrompt]. rewrite lex_escaped. reflexivity.
Qed.

Lemma command_words_safe_override_witness :
  Shell.words (buildCommand (Some "xai/grok-4-1") "Fix the bug") =
    Some ["openclaw"; "chat"; "--once"; "--url"; "ws://localhost:18789";
          "--model"; "xai/grok-4-1"; "Fix the bug"].
Proof. apply command_words_safe_override; [discriminate | reflexivity]. Defined.
(** ** Outcome of a run *)

Lemma last_index : forall pre o,
  map ob_turn (app pre [o]) = turn_indices (length (app pre [o])) ->
  ob_turn o = Z.of_nat (length (app pre [o])).
Proof.
  intros pre o H. rewrite length_app in *. simpl length in *.
  rewrite Nat.add_1_r, turn_indices_snoc, map_app in H.
  apply app_inj_tail in H as [_ H]. rewrite H. lia.
Qed.

Lemma Forall_removelast : forall {A} (P : A -> Prop) l, Forall P l -> Forall P (removelast l).
Proof.
  intros A P l H. induction H as [|x l Hx Hl IH]; [constructor|].
  destruct l as [|y l]; [constructor|]. constructor; assumption.
Qed.

Lemma continued_record : forall r l,
  Forall (continued r) l ->
  Forall (fun x => completed x = false /\ turn x < maxIterations r) (map obs_record l).
Proof.
  intros r l H. apply Forall_map. eapply Forall_impl; [|exact H].
  intros o [Hc Ht]. split; [exact Hc | exact Ht].
Qed.

(** X17: when the last allowed turn runs and exits 0, the run succeeds with
    no error and [turns_used = max_iterations], with or without a
    completion marker in its output. *)
Theorem final_turn_clean_exit : forall (w : World) (r : MissionExecuteRequest)
    (resp : MissionExecuteResponse) (st : LoopState) (pre : list TurnObs) (o : TurnObs),
  executeMissionTask_traced w r = (resp, Some st) ->
  ls_log st = app pre [o] ->
  ob_turn o = maxIterations r ->
  ob_exit o = 0 ->
  success resp = true /\ r_error resp = None /\ turns_used resp = Some (maxIterations r).
Proof.
  intros w r resp st pre o H Hlog Hturn Hexit.
  pose proof (execute_traced_cases _ _ _ _ H) as [Hfin ->].
  pose proof (buildResponse_final _ _ _ Hfin) as (Hs & _ & Ht & _ & He).
  destruct Hfin as (_ & Hidx & _ & _ & _ & Hst).
  assert (Hin : In o (ls_log st)) by (rewrite Hlog; apply in_or_app; right; now left).
  assert (Hsucc : finalSuccess st = true).
  { unfold stop_ok in Hst. destruct (ls_stop st) as [[n| | |]|].
    - destruct Hst as (_ & _ & _ & _ & Hall). rewrite Forall_forall in Hall.
      destruct (Hall o Hin) as [_ Hlt]. unfold maxI in Hlt. lia.
    - destruct Hst as (pre' & o' & Hl & _ & _ & Hne & _).
      rewrite Hlog in Hl. apply app_inj_tail in Hl as [_ <-]. contradiction.
    - destruct Hst as (pre' & o' & _ & _ & _ & _ & Hs'). exact Hs'.
    - destruct Hst as (pre' & o' & _ & _ & _ & _ & _ & Hs'). exact Hs'.
    - destruct Hst as (Hl & _). rewrite Hl in Hin. destruct Hin. }
  rewrite Hsucc in Hs, He. split; [exact Hs|]. split; [exact He|].
  rewrite Ht. rewrite Hlog in Hidx |- *. rewrite <- (last_index pre o Hidx), Hturn. reflexivity.
Qed.

Lemma final_turn_clean_exit_witness :
  exists resp st, executeMissionTask_traced world_clean req_multi = (resp, Some st) /\
    success resp = true /\ r_error resp = None /\ turns_used resp = Some 3.
Proof.
  destruct (executeMissionTask_traced world_clean req_multi) as [resp [st|]] eqn:E;
    [|vm_compute in E; discriminate E].
  exists resp, st. split; [reflexivity|].
  destruct (final_turn_clean_exit world_clean req_multi resp st
              [mkObs 1 "done" "" 0 10; mkObs 2 "done" "" 0 10] (mkObs 3 "done" "" 0 10) E)
    as (Hs & He & Ht).
  - vm_compute in E. injection E as _ <-. vm_compute. reflexivity.
  - vm_compute. reflexivity.
  - reflexivity.
  - split; [exact Hs|]. split; [exact He|]. rewrite Ht. vm_compute. reflexivity.
Defined.

(** X18: a run reports an error exactly when it is unsuccessful, and a
    successful run ended on a turn that either was classified complete or
    was the last allowed turn and exited 0. *)
Theorem success_iff_no_error : forall (w : World) (r : MissionExecuteRequest)
    (resp : MissionExecuteResponse) (ost : option LoopState),
  executeMissionTask_traced w r = (resp, ost) ->
  (success resp = true <-> r_error resp = None) /\
  (success resp = true ->
   exists st pre o, ost = Some st /\ ls_log st = app pre [o] /\
     (obs_completed o = true \/ (ob_turn o = maxIterations r /\ ob_exit o = 0))).
Proof.
  intros w r resp ost H.
  pose proof (execute_traced_cases _ _ _ _ H) as Hc.
  destruct ost as [st|].
  - destruct Hc as [Hfin ->].
    pose proof (buildResponse_final _ _ _ Hfin) as (Hs & _ & _ & _ & He).
    destruct Hfin as (_ & _ & _ & _ & _ & Hst).
    rewrite Hs, He. split.
    + destruct (finalSuccess st); split; congruence.
    + intros Hsucc. exists st. unfold stop_ok in Hst. destruct (ls_stop st) as [[n| | |]|].
      * destruct Hst as (Hf & _). congruence.
      * destruct Hst as (pre & o & _ & _ & _ & _ & Hf). congruence.
      * destruct Hst as (pre & o & Hl & _ & Hc & _). exists pre, o.
        split; [reflexivity|]. split; [exact Hl | now left].
      * destruct Hst as (pre & o & Hl & _ & Ht & Hx & _). exists pre, o.
        split; [reflexivity|]. split; [exact Hl | right; split; [exact Ht | exact Hx]].
      * destruct Hst as (_ & Hf & _). congruence.
  - destruct Hc as [e ->]. cbn. split; [split; discriminate | discriminate].
Qed.

Lemma success_iff_no_error_witness :
  exists resp ost, executeMissionTask_traced world_two req_multi = (resp, ost) /\
    success resp = true /\ r_error resp = None.
Proof.
  destruct (executeMissionTask_traced world_two req_multi) as [resp ost] eqn:E.
  exists resp, ost. split; [reflexivity|].
  destruct (success_iff_no_error world_two req_multi resp ost E) as [Hiff _].
  assert (Hs : success resp = true) by (vm_compute in E; injection E as <- _; reflexivity).
  split; [exact Hs | apply Hiff, Hs].
Defined.

(** X19: in the turn records of a multi-turn result, every record except the
    last is marked not completed and numbered below [max_iterations]: the
    loop never runs past a completed turn. *)
Theorem only_last_record_completed : forall (w : World) (r : MissionExecuteRequest)
    (resp : MissionExecuteResponse) (ost : option LoopState) (outs : list TurnOutput),
  executeMissionTask_traced w r = (resp, ost) ->
  turn_outputs resp = Some outs ->
  Forall (fun x => completed x = false /\ turn x < maxIterations r) (removelast outs).
Proof.
  intros w r resp ost outs H Ho.
  pose proof (execute_traced_cases _ _ _ _ H) as Hc.
  destruct ost as [st|]; [|destruct Hc as [e ->]; discriminate Ho].
  destruct Hc as [Hfin ->].
  pose proof (buildResponse_final _ _ _ Hfin) as (_ & _ & _ & Htos & _).
  rewrite Ho in Htos. destruct (multi r); [|discriminate Htos].
  injection Htos as ->.
  destruct Hfin as (_ & _ & _ & _ & _ & Hst). unfold stop_ok in Hst.
  destruct (ls_stop st) as [[n| | |]|].
  - destruct Hst as (_ & _ & _ & _ & Hall).
    now apply Forall_removelast, continued_record.
  - destruct Hst as (pre & o & -> & Hall & _).
    rewrite map_app; cbn [map]; rewrite removelast_last. now apply continued_record.
  - destruct Hst as (pre & o & -> & Hall & _).
    rewrite map_app; cbn [map]; rewrite removelast_last. now apply continued_record.
  - destruct Hst as (pre & o & -> & Hall & _).
    rewrite map_app; cbn [map]; rewrite removelast_last. now apply continued_record.
  - destruct Hst as (-> & _). constructor.
Qed.

Lemma only_last_record_completed_witness :
  exists resp ost outs, executeMissionTask_traced world_two req_multi = (resp, ost) /\
    turn_outputs resp = Some outs /\ length outs = 2%nat /\
    Forall (fun x => completed x = false /\ turn x < maxIterations req_multi) (removelast outs).
Proof.
  destruct (executeMissionTask_traced world_two req_multi) as [resp ost] eqn:E.
  destruct (turn_outputs resp) as [outs|] eqn:Eo;
    [|vm_compute in E; injection E as <- _; discriminate Eo].
  exists resp, ost, outs. split; [reflexivity|]. split; [exact Eo|].
  split; [vm_compute in E; injection E as <- _; injection Eo as <-; reflexivity|].
  exact (only_last_record_completed world_two req_multi resp ost outs E Eo).
Defined.
